(** * I2S DMA output driver (components/i2s/i2s_freertos.c)

    A shallow embedding of the driver: the clock-divider search of
    [i2sSetRate], the buffer pool and descriptor ring built by [i2sInit],
    the interrupt handler [i2s_isr] and the producer routine
    [i2sPushSample], with the properties the specification states about
    them. *)

From Stdlib Require Import ZArith List Lia Bool Sorted.
From stdpp Require Import base list.

Local Open Scope Z_scope.

(** ** C integers

    [int] and [long] are 32 bits wide on the target.  A value of type [int]
    is a [Z] in the range [-2^31, 2^31); [int32] is the wrap-around that an
    arithmetic result undergoes. *)

Definition int32 (z : Z) : Z := (z + 2 ^ 31) mod 2 ^ 32 - 2 ^ 31.

Definition uint32 (z : Z) : Z := z mod 2 ^ 32.

Definition INT_MAX : Z := 2 ^ 31 - 1.

(** A C [for (i = lo; i < hi; i++) body] whose body does not assign [i]:
    [for_loop n i] runs the [n] remaining iterations from counter [i]. *)

Fixpoint for_loop {S : Type} (n : nat) (i : Z) (body : Z -> S -> S) (s : S) : S :=
  match n with
  | O => s
  | Datatypes.S n' => for_loop n' (i + 1) body (body i s)
  end.

Definition for_range {S : Type} (lo hi : Z) (body : Z -> S -> S) (s : S) : S :=
  for_loop (Z.to_nat (hi - lo)) lo body s.

(** ** The clock-divider search of [i2sSetRate] *)

Module Divider.

(** [#define BASEFREQ (160000000L)] and [#define ABS(x) (((x)>0)?(x):(-(x)))] *)

Definition BASEFREQ : Z := 160000000.

Definition ABS (x : Z) : Z := if x >? 0 then x else int32 (- x).

(** The four [best*] locals of [i2sSetRate]. *)

Record best : Type := Best {
  bestclkmdiv : Z;
  bestbckdiv : Z;
  bestbits : Z;
  bestfreq : Z
}.

(** [int bestclkmdiv=5, bestbckdiv=2, bestbits=16, bestfreq=-10000;] *)

Definition best_init : best := Best 5 2 16 (-10000).

(** [tstfreq=BASEFREQ/(bckdiv*clkmdiv*bits*2);] the product is computed in
    [int], the quotient is C's truncating division. *)

Definition tstfreq_of (bckdiv clkmdiv bits : Z) : Z :=
  int32 (Z.quot BASEFREQ (int32 (int32 (int32 (bckdiv * clkmdiv) * bits) * 2))).

(** The body of the innermost loop. *)

Definition try_divider (rate bckdiv clkmdiv bits : Z) (b : best) : best :=
  let tstfreq := tstfreq_of bckdiv clkmdiv bits in
  if ABS (int32 (rate - tstfreq)) <? ABS (int32 (rate - bestfreq b))
  then Best clkmdiv bckdiv bits tstfreq
  else b.

(** [bits<(enaWordlenFuzzing?20:17)] *)

Definition bits_limit (enaWordlenFuzzing : Z) : Z :=
  if enaWordlenFuzzing =? 0 then 17 else 20.

(** The three nested loops. *)

Definition find_divider (rate enaWordlenFuzzing : Z) : best :=
  for_range 2 64 (fun bckdiv =>
    for_range 5 64 (fun clkmdiv =>
      for_range 16 (bits_limit enaWordlenFuzzing) (fun bits =>
        try_divider rate bckdiv clkmdiv bits)))
    best_init.

(** A divider triple, the search space, and the frequency a triple gives:
    the quantities the specification speaks of. *)

Record triple : Type := Triple { t_bck : Z; t_clkm : Z; t_bits : Z }.

Definition chosen (b : best) : triple :=
  Triple (bestbckdiv b) (bestclkmdiv b) (bestbits b).

Definition in_space (enaWordlenFuzzing : Z) (t : triple) : Prop :=
  2 <= t_bck t < 64 /\ 5 <= t_clkm t < 64 /\
  16 <= t_bits t < bits_limit enaWordlenFuzzing.

Definition achieved (t : triple) : Z :=
  BASEFREQ / (t_bck t * t_clkm t * t_bits t * 2).

Definition error (rate : Z) (t : triple) : Z := Z.abs (rate - achieved t).

(** Enumeration order of the loops: ascending bck-divider, then ascending
    main-clock divider, then ascending bits. *)

Definition enum_lt (a b : triple) : Prop :=
  t_bck a < t_bck b \/
  (t_bck a = t_bck b /\
   (t_clkm a < t_clkm b \/ (t_clkm a = t_clkm b /\ t_bits a < t_bits b))).

End Divider.

(** ** Memory

    The sample buffers live on the heap.  A pointer returned by [calloc] is
    the start of a heap block; the driver only ever indexes from such a
    start, so a pointer is [NULL] or a block.  A block is its bytes.  An
    access through [NULL], to a block that does not exist, or outside a
    block has no defined behaviour in C: the heap operations return [None]
    there, and the code that performed the access stops ([Fault] below). *)

Inductive ptr : Type :=
| NULL
| Ptr (b : nat).

#[global] Instance ptr_eq_dec : EqDecision ptr.
Proof. solve_decision. Defined.

Abbreviation heap_t := (list (list Z)).

(** [calloc(nmemb, size)]: a fresh zero-filled block, or [NULL] when the
    allocator has no memory; which of the two is the allocator's choice. *)

Definition calloc (ok : bool) (nmemb size : Z) (h : heap_t) : ptr * heap_t :=
  if ok
  then (Ptr (length h), h ++ [replicate (Z.to_nat (nmemb * size)) 0])
  else (NULL, h).

(** [((uint8_t * )p)[i] = v] *)

Definition store_byte (p : ptr) (i v : Z) (h : heap_t) : option heap_t :=
  match p with
  | NULL => None
  | Ptr b =>
      match h !! b with
      | None => None
      | Some bytes =>
          if (0 <=? i) && (i <? Z.of_nat (length bytes))
          then Some (<[b := <[Z.to_nat i := v mod 256]> bytes]> h)
          else None
      end
  end.

(** [((unsigned int * )p)[i] = v]: four bytes, least significant first. *)

Definition store_word (p : ptr) (i v : Z) (h : heap_t) : option heap_t :=
  h0 ← store_byte p (4 * i) v h;
  h1 ← store_byte p (4 * i + 1) (Z.shiftr v 8) h0;
  h2 ← store_byte p (4 * i + 2) (Z.shiftr v 16) h1;
  store_byte p (4 * i + 3) (Z.shiftr v 24) h2.

Definition load_byte (p : ptr) (i : Z) (h : heap_t) : option Z :=
  match p with
  | NULL => None
  | Ptr b =>
      bytes ← h !! b;
      if 0 <=? i then bytes !! Z.to_nat i else None
  end.

Definition load_word (p : ptr) (i : Z) (h : heap_t) : option Z :=
  b0 ← load_byte p (4 * i) h;
  b1 ← load_byte p (4 * i + 1) h;
  b2 ← load_byte p (4 * i + 2) h;
  b3 ← load_byte p (4 * i + 3) h;
  Some (b0 + Z.shiftl b1 8 + Z.shiftl b2 16 + Z.shiftl b3 24).

(** The size in bytes of the block a pointer refers to. *)

Definition buffer_len (p : ptr) (h : heap_t) : option Z :=
  match p with
  | NULL => None
  | Ptr b => (fun bytes : list Z => Z.of_nat (length bytes)) <$> h !! b
  end.

(** ** Peripheral registers

    The registers of I2S0 the driver touches, and the access macros of
    soc/soc.h.  A register holds 32 bits. *)

Inductive reg : Type :=
| I2S_INT_ST_REG
| I2S_INT_CLR_REG
| I2S_INT_ENA_REG
| I2S_OUT_EOF_DES_ADDR_REG
| I2S_LC_CONF_REG
| I2S_CONF_REG
| I2S_CONF2_REG
| I2S_OUT_LINK_REG
| I2S_IN_LINK_REG
| I2S_FIFO_CONF_REG
| I2S_CONF_CHAN_REG
| I2S_TIMING_REG
| I2S_SAMPLE_RATE_CONF_REG
| I2S_CLKM_CONF_REG.

#[global] Instance reg_eq_dec : EqDecision reg.
Proof. solve_decision. Defined.

Definition regfile : Type := reg -> Z.

Definition reg_write (r : reg) (v : Z) (f : regfile) : regfile :=
  fun r' => if decide (r = r') then uint32 v else f r'.

Definition reg_set_mask (r : reg) (mask : Z) (f : regfile) : regfile :=
  reg_write r (Z.lor (f r) mask) f.

Definition reg_clear_mask (r : reg) (mask : Z) (f : regfile) : regfile :=
  reg_write r (Z.land (f r) (Z.lnot mask)) f.

Definition reg_set_bits (r : reg) (bit_map value shift : Z) (f : regfile) : regfile :=
  reg_write r
    (Z.lor (Z.land (f r) (Z.lnot (Z.shiftl bit_map shift)))
           (Z.shiftl (Z.land value bit_map) shift)) f.

(** The bit masks and shifts of soc/i2s_reg.h, the pin masks of
    driver/gpio.h and the signal numbers of soc/gpio_sig_map.h that the
    driver names.  Those headers belong to the SDK; their values are
    parameters here. *)

Record i2s_consts : Type := {
  I2S_OUT_EOF_INT_ST : Z;
  I2S_OUT_EOF_INT_ENA_S : Z;
  I2S_IN_RST : Z;
  I2S_OUT_RST : Z;
  I2S_AHBM_RST : Z;
  I2S_AHBM_FIFO_RST : Z;
  I2S_CHECK_OWNER : Z;
  I2S_OUT_EOF_MODE : Z;
  I2S_RX_RESET : Z;
  I2S_TX_RESET : Z;
  I2S_TX_FIFO_RESET : Z;
  I2S_RX_FIFO_RESET : Z;
  I2S_TX_MSB_SHIFT : Z;
  I2S_TX_START : Z;
  I2S_OUTLINK_ADDR : Z;
  I2S_OUTLINK_START : Z;
  I2S_INLINK_ADDR : Z;
  I2S_DSCR_EN : Z;
  I2S_TX_FIFO_MOD_M : Z;
  I2S_RX_FIFO_MOD_M : Z;
  I2S_TX_DATA_NUM_S : Z;
  I2S_RX_DATA_NUM_S : Z;
  I2S_TX_CHAN_MOD_S : Z;
  I2S_RX_CHAN_MOD_S : Z;
  I2S_TX_WS_OUT_DELAY_S : Z;
  I2S_RX_BITS_MOD : Z;
  I2S_RX_BITS_MOD_S : Z;
  I2S_TX_BITS_MOD : Z;
  I2S_TX_BITS_MOD_S : Z;
  I2S_RX_BCK_DIV_NUM : Z;
  I2S_RX_BCK_DIV_NUM_S : Z;
  I2S_TX_BCK_DIV_NUM : Z;
  I2S_TX_BCK_DIV_NUM_S : Z;
  I2S_CLKM_DIV_A : Z;
  I2S_CLKM_DIV_A_S : Z;
  I2S_CLKM_DIV_B : Z;
  I2S_CLKM_DIV_B_S : Z;
  I2S_CLKM_DIV_NUM : Z;
  I2S_CLKM_DIV_NUM_S : Z;
  GPIO_SEL_17 : Z;
  GPIO_SEL_18 : Z;
  GPIO_SEL_19 : Z;
  GPIO_NUM_17 : Z;
  GPIO_NUM_18 : Z;
  GPIO_NUM_19 : Z;
  I2S0O_DATA_OUT23_IDX : Z;
  I2S0O_BCK_OUT_IDX : Z;
  I2S0O_WS_OUT_IDX : Z
}.

(** ** DMA descriptors (rom/lldesc.h)

    [size] and [length] are 12-bit fields, [offset] has 5 bits, [sosf],
    [eof] and [owner] one bit each; [buf] points to the data and [empty]
    is the 32-bit word that holds the address of the next descriptor. *)

Module Lldesc.

Record lldesc_t : Type := Make {
  size : Z;
  length : Z;
  offset : Z;
  sosf : Z;
  eof : Z;
  owner : Z;
  buf : ptr;
  empty : Z
}.

End Lldesc.

Abbreviation lldesc_t := Lldesc.lldesc_t.

Definition bitfield (width v : Z) : Z := v mod 2 ^ width.

(** ** The FreeRTOS queue (freertos/queue.h)

    The kernel is not part of this driver.  A queue created by
    [xQueueCreate(len, _)] is a FIFO of at most [len] items; the [FromISR]
    calls never wait and report failure instead; [xQueueReceive] with
    [portMAX_DELAY] returns only when an item is there. *)

Record queue : Type := Queue {
  uxLength : Z;
  items : list ptr
}.

Definition xQueueCreate (len : Z) : queue := Queue len [].

Definition uxMessagesWaiting (q : queue) : Z := Z.of_nat (length (items q)).

Definition xQueueIsQueueFullFromISR (q : queue) : bool :=
  uxMessagesWaiting q =? uxLength q.

Definition xQueueReceiveFromISR (q : queue) : queue * option ptr :=
  match items q with
  | [] => (q, None)
  | t :: rest => (Queue (uxLength q) rest, Some t)
  end.

Definition xQueueSendFromISR (q : queue) (item : ptr) : queue * bool :=
  if uxMessagesWaiting q <? uxLength q
  then (Queue (uxLength q) (items q ++ [item]), true)
  else (q, false).

(** [None]: the queue is empty and the caller stays blocked. *)

Definition xQueueReceive (q : queue) : option (queue * ptr) :=
  match items q with
  | [] => None
  | t :: rest => Some (Queue (uxLength q) rest, t)
  end.

(** ** Driver state

    The file's static variables, the heap, the register file, and a log of
    what the driver did that is visible outside it: calls into the SDK and
    the kernel, queue traffic, and stores into sample buffers. *)

Inductive ext_call : Type :=
| periph_module_enable
| esp_intr_alloc
| esp_intr_enable
| gpio_config (pin_bit_mask : Z)
| gpio_matrix_out (gpio signal_idx : Z)
| printf (rate mdiv bckdiv bits frq : Z)
| portYIELD_FROM_ISR.

Inductive event : Type :=
| EvCall (c : ext_call)
| EvQueueReceiveFromISR (got : option ptr)
| EvQueueSendFromISR (item : ptr) (sent : bool)
| EvQueueReceive (item : ptr)
| EvStore (p : ptr) (index sample : Z).

Record state : Type := State {
  i2sBuf : list ptr;
  i2sBufDesc : list lldesc_t;
  dmaQueue : option queue;
  underrunCnt : Z;
  currDMABuff : ptr;
  currDMABuffPos : Z;
  heap : heap_t;
  regs : regfile;
  trace : list event
}.

Definition set_i2sBuf (v : list ptr) (st : state) : state :=
  State v (i2sBufDesc st) (dmaQueue st) (underrunCnt st) (currDMABuff st)
        (currDMABuffPos st) (heap st) (regs st) (trace st).

Definition set_i2sBufDesc (v : list lldesc_t) (st : state) : state :=
  State (i2sBuf st) v (dmaQueue st) (underrunCnt st) (currDMABuff st)
        (currDMABuffPos st) (heap st) (regs st) (trace st).

Definition set_dmaQueue (v : option queue) (st : state) : state :=
  State (i2sBuf st) (i2sBufDesc st) v (underrunCnt st) (currDMABuff st)
        (currDMABuffPos st) (heap st) (regs st) (trace st).

Definition set_underrunCnt (v : Z) (st : state) : state :=
  State (i2sBuf st) (i2sBufDesc st) (dmaQueue st) v (currDMABuff st)
        (currDMABuffPos st) (heap st) (regs st) (trace st).

Definition set_currDMABuff (v : ptr) (st : state) : state :=
  State (i2sBuf st) (i2sBufDesc st) (dmaQueue st) (underrunCnt st) v
        (currDMABuffPos st) (heap st) (regs st) (trace st).

Definition set_currDMABuffPos (v : Z) (st : state) : state :=
  State (i2sBuf st) (i2sBufDesc st) (dmaQueue st) (underrunCnt st)
        (currDMABuff st) v (heap st) (regs st) (trace st).

Definition set_heap (v : heap_t) (st : state) : state :=
  State (i2sBuf st) (i2sBufDesc st) (dmaQueue st) (underrunCnt st)
        (currDMABuff st) (currDMABuffPos st) v (regs st) (trace st).

Definition set_regs (v : regfile) (st : state) : state :=
  State (i2sBuf st) (i2sBufDesc st) (dmaQueue st) (underrunCnt st)
        (currDMABuff st) (currDMABuffPos st) (heap st) v (trace st).

Definition log (e : event) (st : state) : state :=
  State (i2sBuf st) (i2sBufDesc st) (dmaQueue st) (underrunCnt st)
        (currDMABuff st) (currDMABuffPos st) (heap st) (regs st)
        (trace st ++ [e]).

Definition call (c : ext_call) (st : state) : state := log (EvCall c) st.

(** The register macros on the state. *)

Definition READ_PERI_REG (r : reg) (st : state) : Z := regs st r.

Definition WRITE_PERI_REG (r : reg) (v : Z) (st : state) : state :=
  set_regs (reg_write r v (regs st)) st.

Definition SET_PERI_REG_MASK (r : reg) (mask : Z) (st : state) : state :=
  set_regs (reg_set_mask r mask (regs st)) st.

Definition CLEAR_PERI_REG_MASK (r : reg) (mask : Z) (st : state) : state :=
  set_regs (reg_clear_mask r mask (regs st)) st.

Definition SET_PERI_REG_BITS (r : reg) (bit_map value shift : Z) (st : state) : state :=
  set_regs (reg_set_bits r bit_map value shift (regs st)) st.

(** How a routine ends: it returns ([Done]), it is still waiting in
    [xQueueReceive] ([Blocked]), or it performed an access without defined
    behaviour ([Fault], with the state at that point). *)

Inductive outcome (A : Type) : Type :=
| Done (a : A)
| Blocked
| Fault (st : state).

Arguments Done {A} a.
Arguments Blocked {A}.
Arguments Fault {A} st.

#[global] Instance outcome_bind : MBind outcome :=
  fun A B (k : A -> outcome B) (m : outcome A) =>
    match m with
    | Done a => k a
    | Blocked => Blocked
    | Fault st => Fault st
    end.

Fixpoint for_loopM (n : nat) (i : Z) (body : Z -> state -> outcome state)
    (st : state) : outcome state :=
  match n with
  | O => Done st
  | Datatypes.S n' => st' ← body i st; for_loopM n' (i + 1) body st'
  end.

Definition for_rangeM (lo hi : Z) (body : Z -> state -> outcome state)
    (st : state) : outcome state :=
  for_loopM (Z.to_nat (hi - lo)) lo body st.

(** ** The driver *)

Section Driver.

(** i2s_freertos.h is not part of the source tree: the number of DMA
    buffers, the length of one buffer in 32-bit words and the default sample
    rate it defines are parameters. *)

Variable I2SDMABUFCNT : Z.
Variable I2SDMABUFLEN : Z.
Variable I2S_DEFAULT_SAMPLE_RATE : Z.

Variable K : i2s_consts.

(** [desc_addr x] is [(uint32_t)(&i2sBufDesc[x])], the address of
    descriptor [x] as the DMA engine sees it. *)

Variable desc_addr : Z -> Z.

(** The descriptor stored at an address, if the address is that of one of
    the [I2SDMABUFCNT] descriptors. *)

Definition desc_index (a : Z) : option Z :=
  find (fun x => desc_addr x =? a) (seqZ 0 I2SDMABUFCNT).

Definition desc_at (a : Z) (st : state) : option lldesc_t :=
  x ← desc_index a;
  i2sBufDesc st !! Z.to_nat x.

(** *** [i2s_isr]

    [rx_woken] and [tx_woken] say whether the scheduler reports, through
    [HPTaskAwoken], that the receive and the send made a higher-priority
    task ready. *)

Definition i2s_isr (rx_woken tx_woken : bool) (st : state) : outcome state :=
  let HPTaskAwoken := false in
  let slc_intr_status := READ_PERI_REG I2S_INT_ST_REG st in
  if slc_intr_status =? 0 then Done st
  else
    let st := WRITE_PERI_REG I2S_INT_CLR_REG 0xffffffff st in
    '(st, HPTaskAwoken) ←
      (if Z.land slc_intr_status (I2S_OUT_EOF_INT_ST K) =? 0
       then (Done (st, HPTaskAwoken) : outcome (state * bool))
       else
         let finishedDesc := READ_PERI_REG I2S_OUT_EOF_DES_ADDR_REG st in
         match dmaQueue st with
         | None => Fault st
         | Some q =>
             let '(st, q, HPTaskAwoken) :=
               if xQueueIsQueueFullFromISR q
               then
                 let st := set_underrunCnt (int32 (underrunCnt st + 1)) st in
                 let '(q, dummy) := xQueueReceiveFromISR q in
                 let st := log (EvQueueReceiveFromISR dummy) (set_dmaQueue (Some q) st) in
                 (st, q, HPTaskAwoken || (rx_woken && bool_decide (is_Some dummy)))
               else (st, q, HPTaskAwoken) in
             match desc_at finishedDesc st with
             | None => Fault st
             | Some d =>
                 let '(q, sent) := xQueueSendFromISR q (Lldesc.buf d) in
                 let st := log (EvQueueSendFromISR (Lldesc.buf d) sent)
                               (set_dmaQueue (Some q) st) in
                 Done (st, HPTaskAwoken || (tx_woken && sent))
             end
         end);
    if (HPTaskAwoken : bool) then Done (call portYIELD_FROM_ISR st) else Done st.

(** *** [i2sSetRate] *)

Definition i2sSetRate (rate enaWordlenFuzzing : Z) (st : state) : state :=
  let b := Divider.find_divider rate enaWordlenFuzzing in
  let bestclkmdiv := Divider.bestclkmdiv b in
  let bestbckdiv := Divider.bestbckdiv b in
  let bestbits := Divider.bestbits b in
  let st := call (printf rate bestclkmdiv bestbckdiv bestbits
                    (Divider.tstfreq_of bestbckdiv bestclkmdiv bestbits)) st in
  let st := SET_PERI_REG_BITS I2S_SAMPLE_RATE_CONF_REG (I2S_RX_BITS_MOD K) bestbits (I2S_RX_BITS_MOD_S K) st in
  let st := SET_PERI_REG_BITS I2S_SAMPLE_RATE_CONF_REG (I2S_TX_BITS_MOD K) bestbits (I2S_TX_BITS_MOD_S K) st in
  let st := SET_PERI_REG_BITS I2S_SAMPLE_RATE_CONF_REG (I2S_RX_BCK_DIV_NUM K) bestbckdiv (I2S_RX_BCK_DIV_NUM_S K) st in
  let st := SET_PERI_REG_BITS I2S_SAMPLE_RATE_CONF_REG (I2S_TX_BCK_DIV_NUM K) bestbckdiv (I2S_TX_BCK_DIV_NUM_S K) st in
  let st := SET_PERI_REG_BITS I2S_CLKM_CONF_REG (I2S_CLKM_DIV_A K) 0 (I2S_CLKM_DIV_A_S K) st in
  let st := SET_PERI_REG_BITS I2S_CLKM_CONF_REG (I2S_CLKM_DIV_B K) 0 (I2S_CLKM_DIV_B_S K) st in
  SET_PERI_REG_BITS I2S_CLKM_CONF_REG (I2S_CLKM_DIV_NUM K) bestclkmdiv (I2S_CLKM_DIV_NUM_S K) st.

(** *** [i2sInit]

    [alloc_ok y] says whether the [calloc] for buffer [y] succeeds and
    [queue_ok] whether [xQueueCreate] does. *)

(** [i2sBuf[y]=calloc(I2SDMABUFLEN, 4);] and the clearing loop over
    [x<I2SDMABUFLEN] with [i2sBuf[y][x]=0;]. *)

Definition clear_byte (y x : Z) (st : state) : outcome state :=
  match i2sBuf st !! Z.to_nat y with
  | None => Fault st
  | Some p =>
      match store_byte p x 0 (heap st) with
      | None => Fault st
      | Some h => Done (set_heap h st)
      end
  end.

Definition alloc_buffer (alloc_ok : Z -> bool) (y : Z) (st : state) : outcome state :=
  let '(p, h) := calloc (alloc_ok y) I2SDMABUFLEN 4 (heap st) in
  let st := set_i2sBuf (<[Z.to_nat y := p]> (i2sBuf st)) (set_heap h st) in
  for_rangeM 0 I2SDMABUFLEN (clear_byte y) st.

(** The body of the descriptor loop. *)

Definition init_desc (x : Z) (st : state) : outcome state :=
  match i2sBuf st !! Z.to_nat x with
  | None => Fault st
  | Some p =>
      let d :=
        {| Lldesc.owner := bitfield 1 1;
           Lldesc.eof := bitfield 1 1;
           Lldesc.sosf := bitfield 1 0;
           Lldesc.length := bitfield 12 (int32 (I2SDMABUFLEN * 4));
           Lldesc.size := bitfield 12 (int32 (I2SDMABUFLEN * 4));
           Lldesc.buf := p;
           Lldesc.offset := bitfield 5 0;
           Lldesc.empty :=
             if x <? I2SDMABUFCNT - 1 then desc_addr (x + 1) else desc_addr 0 |} in
      Done (set_i2sBufDesc (<[Z.to_nat x := d]> (i2sBufDesc st)) st)
  end.

Definition i2sInit (alloc_ok : Z -> bool) (queue_ok : bool) (st : state) : outcome state :=
  let st := set_underrunCnt 0 st in
  st ← for_rangeM 0 I2SDMABUFCNT (alloc_buffer alloc_ok) st;
  let st := call periph_module_enable st in
  let dma_rst := Z.lor (Z.lor (Z.lor (I2S_IN_RST K) (I2S_OUT_RST K)) (I2S_AHBM_RST K)) (I2S_AHBM_FIFO_RST K) in
  let st := SET_PERI_REG_MASK I2S_LC_CONF_REG dma_rst st in
  let st := CLEAR_PERI_REG_MASK I2S_LC_CONF_REG dma_rst st in
  let fifo_rst := Z.lor (Z.lor (Z.lor (I2S_RX_RESET K) (I2S_TX_RESET K)) (I2S_TX_FIFO_RESET K)) (I2S_RX_FIFO_RESET K) in
  let st := SET_PERI_REG_MASK I2S_CONF_REG fifo_rst st in
  let st := CLEAR_PERI_REG_MASK I2S_CONF_REG fifo_rst st in
  let st := SET_PERI_REG_MASK I2S_LC_CONF_REG (Z.lor (I2S_CHECK_OWNER K) (I2S_OUT_EOF_MODE K)) st in
  let st := call esp_intr_alloc st in
  let st := SET_PERI_REG_BITS I2S_INT_ENA_REG 0x1 1 (I2S_OUT_EOF_INT_ENA_S K) st in
  let st := call esp_intr_enable st in
  st ← for_rangeM 0 I2SDMABUFCNT init_desc st;
  let st := CLEAR_PERI_REG_MASK I2S_OUT_LINK_REG (I2S_OUTLINK_ADDR K) st in
  let st := SET_PERI_REG_MASK I2S_OUT_LINK_REG (Z.land (desc_addr 0) (I2S_OUTLINK_ADDR K)) st in
  let st := CLEAR_PERI_REG_MASK I2S_IN_LINK_REG (I2S_INLINK_ADDR K) st in
  let st := SET_PERI_REG_MASK I2S_IN_LINK_REG (Z.land (desc_addr 1) (I2S_INLINK_ADDR K)) st in
  let st := set_dmaQueue (if queue_ok then Some (xQueueCreate (I2SDMABUFCNT - 1)) else None) st in
  let st := call (gpio_config (Z.lor (Z.lor (GPIO_SEL_17 K) (GPIO_SEL_18 K)) (GPIO_SEL_19 K))) st in
  let st := call (gpio_matrix_out (GPIO_NUM_17 K) (I2S0O_DATA_OUT23_IDX K)) st in
  let st := call (gpio_matrix_out (GPIO_NUM_19 K) (I2S0O_BCK_OUT_IDX K)) st in
  let st := call (gpio_matrix_out (GPIO_NUM_18 K) (I2S0O_WS_OUT_IDX K)) st in
  let rxtx_rst := Z.lor (I2S_RX_RESET K) (I2S_TX_RESET K) in
  let st := CLEAR_PERI_REG_MASK I2S_CONF_REG rxtx_rst st in
  let st := SET_PERI_REG_MASK I2S_CONF_REG rxtx_rst st in
  let st := CLEAR_PERI_REG_MASK I2S_CONF_REG rxtx_rst st in
  let st := WRITE_PERI_REG I2S_CONF_REG 0 st in
  let st := WRITE_PERI_REG I2S_CONF2_REG 0 st in
  let st := CLEAR_PERI_REG_MASK I2S_FIFO_CONF_REG
              (Z.lor (Z.lor (I2S_DSCR_EN K) (I2S_TX_FIFO_MOD_M K)) (I2S_RX_FIFO_MOD_M K)) st in
  let st := WRITE_PERI_REG I2S_FIFO_CONF_REG
              (Z.lor (Z.shiftl 32 (I2S_TX_DATA_NUM_S K)) (Z.shiftl 32 (I2S_RX_DATA_NUM_S K))) st in
  let st := SET_PERI_REG_MASK I2S_FIFO_CONF_REG (I2S_DSCR_EN K) st in
  let st := WRITE_PERI_REG I2S_CONF_CHAN_REG
              (Z.lor (Z.shiftl 0 (I2S_TX_CHAN_MOD_S K)) (Z.shiftl 0 (I2S_RX_CHAN_MOD_S K))) st in
  let st := SET_PERI_REG_MASK I2S_CONF_REG (I2S_TX_MSB_SHIFT K) st in
  let st := i2sSetRate I2S_DEFAULT_SAMPLE_RATE 0 st in
  let st := WRITE_PERI_REG I2S_TIMING_REG (Z.shiftl 1 (I2S_TX_WS_OUT_DELAY_S K)) st in
  let st := WRITE_PERI_REG I2S_INT_CLR_REG 0xFFFFFFFF st in
  let st := SET_PERI_REG_MASK I2S_OUT_LINK_REG (I2S_OUTLINK_START K) st in
  let st := SET_PERI_REG_MASK I2S_CONF_REG (I2S_TX_START K) st in
  Done st.

(** *** [i2sPushSample] *)

Definition i2sPushSample (sample : Z) (st : state) : outcome state :=
  st ←
    (if (currDMABuffPos st =? I2SDMABUFLEN) || bool_decide (currDMABuff st = NULL)
     then
       match dmaQueue st with
       | None => Fault st
       | Some q =>
           match xQueueReceive q with
           | None => Blocked
           | Some (q, item) =>
               let st := log (EvQueueReceive item) (set_dmaQueue (Some q) st) in
               let st := set_currDMABuff item st in
               Done (set_currDMABuffPos 0 st)
           end
       end
     else Done st);
  match store_word (currDMABuff st) (currDMABuffPos st) sample (heap st) with
  | None => Fault st
  | Some h =>
      let st := log (EvStore (currDMABuff st) (currDMABuffPos st) sample) (set_heap h st) in
      Done (set_currDMABuffPos (int32 (currDMABuffPos st + 1)) st)
  end.

(** *** [i2sGetUnderrunCnt] *)

Definition i2sGetUnderrunCnt (st : state) : Z := underrunCnt st.

(** ** Runs

    The producer task and the interrupt handler take turns.  An interrupt
    arrives with the status the hardware shows in [I2S_INT_ST_REG] and the
    address in [I2S_OUT_EOF_DES_ADDR_REG]. *)

Inductive action : Type :=
| Interrupt (status eof_des_addr : Z) (rx_woken tx_woken : bool)
| Push (sample : Z).

Definition raise_interrupt (status eof_des_addr : Z) (st : state) : state :=
  set_regs (fun r =>
    match r with
    | I2S_INT_ST_REG => uint32 status
    | I2S_OUT_EOF_DES_ADDR_REG => uint32 eof_des_addr
    | _ => regs st r
    end) st.

Definition step (a : action) (st : state) : outcome state :=
  match a with
  | Interrupt status eof_des_addr rx_woken tx_woken =>
      i2s_isr rx_woken tx_woken (raise_interrupt status eof_des_addr st)
  | Push sample => i2sPushSample sample st
  end.

Fixpoint run (acts : list action) (st : state) : outcome state :=
  match acts with
  | [] => Done st
  | a :: rest => st' ← step a st; run rest st'
  end.

(** What a run is measured by: the pushes it contains, the dequeues and the
    buffer stores it logged. *)

Definition is_push (a : action) : bool :=
  match a with Push _ => true | _ => false end.

Definition pushes (acts : list action) : nat := length (List.filter is_push acts).

Definition is_dequeue (e : event) : bool :=
  match e with EvQueueReceive _ => true | _ => false end.

Definition dequeues (tr : list event) : nat := length (List.filter is_dequeue tr).

Definition store_in_bounds (e : event) : Prop :=
  match e with
  | EvStore _ index _ => 0 <= index < I2SDMABUFLEN
  | _ => True
  end.

(** The producer's cursor after [k] pushes that began without a buffer, in
    a log that held [d0] dequeues before them: no buffer and no new dequeue
    for [k = 0]; otherwise a buffer, offset [(k-1) mod I2SDMABUFLEN + 1],
    and one dequeue per buffer begun. *)

Definition producer_after (k : Z) (d0 : nat) (st : state) : Prop :=
  (k = 0 /\ currDMABuff st = NULL /\ currDMABuffPos st = 0 /\
   dequeues (trace st) = d0) \/
  (1 <= k /\ currDMABuff st <> NULL /\
   currDMABuffPos st = (k - 1) mod I2SDMABUFLEN + 1 /\
   Z.of_nat (dequeues (trace st)) = Z.of_nat d0 + (k - 1) / I2SDMABUFLEN + 1).

(** The DMA engine follows the [empty] word of the descriptor it has
    finished with: [dma_walk k a] is the address it holds after [k] such
    steps from address [a]. *)

Definition dma_next (a : Z) (st : state) : option Z :=
  Lldesc.empty <$> desc_at a st.

Fixpoint dma_walk (k : nat) (a : Z) (st : state) : option Z :=
  match k with
  | O => Some a
  | Datatypes.S k' => a' ← dma_next a st; dma_walk k' a' st
  end.

(** The two static arrays have [I2SDMABUFCNT] elements. *)

Definition arrays_ok (st : state) : Prop :=
  Z.of_nat (length (i2sBuf st)) = I2SDMABUFCNT /\
  Z.of_nat (length (i2sBufDesc st)) = I2SDMABUFCNT.

(** The interrupts of a run. *)

Definition interrupts (acts : list action) : nat :=
  length (List.filter (fun a => negb (is_push a)) acts).

(** The queue, once created, holds no more than its capacity. *)


(** A pointer to a sample buffer of full size; a state in which every
    pointer the driver may write through is such a one: the tokens in the
    queue, the buffers of the descriptors, and the producer's current
    buffer unless it is [NULL]. *)

Definition is_buffer (p : ptr) (st : state) : Prop :=
  buffer_len p (heap st) = Some (4 * I2SDMABUFLEN).

Definition safe_state (st : state) : Prop :=
  (exists q, dmaQueue st = Some q /\ forall tok, In tok (items q) -> is_buffer tok st) /\
  (currDMABuff st = NULL \/ is_buffer (currDMABuff st) st) /\
  0 <= currDMABuffPos st <= I2SDMABUFLEN /\
  (forall x d, 0 <= x < I2SDMABUFCNT ->
     i2sBufDesc st !! Z.to_nat x = Some d -> is_buffer (Lldesc.buf d) st) /\
  Z.of_nat (length (i2sBufDesc st)) = I2SDMABUFCNT.

(** An interrupt the hardware can raise once the ring is set up: the
    address it reports is that of one of the descriptors. *)

Definition ring_action (a : action) : Prop :=
  match a with
  | Interrupt _ eof_des_addr _ _ =>
      exists x, 0 <= x < I2SDMABUFCNT /\ uint32 eof_des_addr = desc_addr x
  | Push _ => True
  end.

(** What the allocation of the pool leaves alone. *)

Definition same_outside_pool (st0 st : state) : Prop :=
  i2sBufDesc st = i2sBufDesc st0 /\ dmaQueue st = dmaQueue st0 /\
  currDMABuff st = currDMABuff st0 /\ currDMABuffPos st = currDMABuffPos st0 /\
  regs st = regs st0 /\ trace st = trace st0 /\ underrunCnt st = underrunCnt st0.

(** A cleared sample buffer, and the pool after the buffers [0 .. y-1] have
    been allocated from [st0]: each is a fresh block of zeros. *)

Definition zeros : list Z := replicate (Z.to_nat (I2SDMABUFLEN * 4)) 0.

Definition pool_at (st0 : state) (y : Z) (st : state) : Prop :=
  same_outside_pool st0 st /\
  heap st = heap st0 ++ replicate (Z.to_nat y) zeros /\
  length (i2sBuf st) = length (i2sBuf st0) /\
  forall j, 0 <= j < y ->
    i2sBuf st !! Z.to_nat j = Some (Ptr (length (heap st0) + Z.to_nat j)).

(** The descriptor the loop of [i2sInit] writes for buffer [x] at [p], and
    the descriptors after the loop has done [0 .. x-1] from [st0]. *)

Definition ring_desc (x : Z) (p : ptr) : lldesc_t :=
  {| Lldesc.size := bitfield 12 (int32 (I2SDMABUFLEN * 4));
     Lldesc.length := bitfield 12 (int32 (I2SDMABUFLEN * 4));
     Lldesc.offset := 0;
     Lldesc.sosf := 0;
     Lldesc.eof := 1;
     Lldesc.owner := 1;
     Lldesc.buf := p;
     Lldesc.empty := if x <? I2SDMABUFCNT - 1 then desc_addr (x + 1) else desc_addr 0 |}.

Definition ring_at (st0 : state) (x : Z) (st : state) : Prop :=
  i2sBuf st = i2sBuf st0 /\ heap st = heap st0 /\ dmaQueue st = dmaQueue st0 /\
  underrunCnt st = underrunCnt st0 /\ currDMABuff st = currDMABuff st0 /\
  currDMABuffPos st = currDMABuffPos st0 /\ regs st = regs st0 /\
  trace st = trace st0 /\
  length (i2sBufDesc st) = length (i2sBufDesc st0) /\
  forall i, 0 <= i < x ->
    exists p, i2sBuf st0 !! Z.to_nat i = Some p /\
              i2sBufDesc st !! Z.to_nat i = Some (ring_desc i p).

End Driver.

(** ** Auxiliary definitions for the divider search

    The candidates in the order the loops visit them, the loop body as a
    function of a candidate, and the two errors the body compares. *)

Definition candidates (limit : Z) : list Divider.triple :=
  flat_map (fun bck =>
    flat_map (fun clkm => map (Divider.Triple bck clkm) (seqZ 16 (limit - 16)))
             (seqZ 5 59))
    (seqZ 2 62).

Definition try_triple (rate : Z) (b : Divider.best) (t : Divider.triple) : Divider.best :=
  Divider.try_divider rate (Divider.t_bck t) (Divider.t_clkm t) (Divider.t_bits t) b.

Definition code_error (rate : Z) (t : Divider.triple) : Z :=
  Divider.ABS (int32 (rate - Divider.tstfreq_of (Divider.t_bck t) (Divider.t_clkm t) (Divider.t_bits t))).

Definition best_error (rate : Z) (b : Divider.best) : Z :=
  Divider.ABS (int32 (rate - Divider.bestfreq b)).

Definition best_of (t : Divider.triple) : Divider.best :=
  Divider.Best (Divider.t_clkm t) (Divider.t_bck t) (Divider.t_bits t)
    (Divider.tstfreq_of (Divider.t_bck t) (Divider.t_clkm t) (Divider.t_bits t)).

Definition enum_ltb (a b : Divider.triple) : bool :=
  (Divider.t_bck a <? Divider.t_bck b) ||
  ((Divider.t_bck a =? Divider.t_bck b) &&
   ((Divider.t_clkm a <? Divider.t_clkm b) ||
    ((Divider.t_clkm a =? Divider.t_clkm b) && (Divider.t_bits a <? Divider.t_bits b)))).

Fixpoint ascending (l : list Divider.triple) : bool :=
  match l with
  | a :: (b :: _) as rest => enum_ltb a b && ascending rest
  | _ => true
  end.

(** Keeping the cheaper of the running best and a new candidate. *)

Definition improve {A S : Type} (cost : A -> Z) (scost : S -> Z) (mk : A -> S)
    (s : S) (a : A) : S :=
  if cost a <? scost s then mk a else s.

(** ** A concrete configuration

    The values of the SDK headers for the ESP32, four buffers of 128
    frames, descriptors laid out 12 bytes apart, and the state of the
    static variables when the program starts. *)

Definition BIT (n : Z) : Z := Z.shiftl 1 n.

Definition esp32_consts : i2s_consts := {|
  I2S_OUT_EOF_INT_ST := BIT 12;
  I2S_OUT_EOF_INT_ENA_S := 12;
  I2S_IN_RST := BIT 0;
  I2S_OUT_RST := BIT 1;
  I2S_AHBM_RST := BIT 3;
  I2S_AHBM_FIFO_RST := BIT 2;
  I2S_CHECK_OWNER := BIT 12;
  I2S_OUT_EOF_MODE := BIT 8;
  I2S_RX_RESET := BIT 1;
  I2S_TX_RESET := BIT 0;
  I2S_TX_FIFO_RESET := BIT 2;
  I2S_RX_FIFO_RESET := BIT 3;
  I2S_TX_MSB_SHIFT := BIT 10;
  I2S_TX_START := BIT 4;
  I2S_OUTLINK_ADDR := 0xFFFFF;
  I2S_OUTLINK_START := BIT 29;
  I2S_INLINK_ADDR := 0xFFFFF;
  I2S_DSCR_EN := BIT 12;
  I2S_TX_FIFO_MOD_M := Z.shiftl 7 13;
  I2S_RX_FIFO_MOD_M := Z.shiftl 7 16;
  I2S_TX_DATA_NUM_S := 6;
  I2S_RX_DATA_NUM_S := 0;
  I2S_TX_CHAN_MOD_S := 0;
  I2S_RX_CHAN_MOD_S := 3;
  I2S_TX_WS_OUT_DELAY_S := 10;
  I2S_RX_BITS_MOD := 0x3F;
  I2S_RX_BITS_MOD_S := 18;
  I2S_TX_BITS_MOD := 0x3F;
  I2S_TX_BITS_MOD_S := 12;
  I2S_RX_BCK_DIV_NUM := 0x3F;
  I2S_RX_BCK_DIV_NUM_S := 6;
  I2S_TX_BCK_DIV_NUM := 0x3F;
  I2S_TX_BCK_DIV_NUM_S := 0;
  I2S_CLKM_DIV_A := 0x3F;
  I2S_CLKM_DIV_A_S := 14;
  I2S_CLKM_DIV_B := 0x3F;
  I2S_CLKM_DIV_B_S := 8;
  I2S_CLKM_DIV_NUM := 0xFF;
  I2S_CLKM_DIV_NUM_S := 0;
  GPIO_SEL_17 := BIT 17;
  GPIO_SEL_18 := BIT 18;
  GPIO_SEL_19 := BIT 19;
  GPIO_NUM_17 := 17;
  GPIO_NUM_18 := 18;
  GPIO_NUM_19 := 19;
  I2S0O_DATA_OUT23_IDX := 163;
  I2S0O_BCK_OUT_IDX := 23;
  I2S0O_WS_OUT_IDX := 25
|}.

Definition esp32_desc_addr (x : Z) : Z := 0x3FFB0000 + 12 * x.

Definition boot_state : state :=
  State (replicate 4 NULL) (replicate 4 (Lldesc.Make 0 0 0 0 0 0 NULL 0))
        None 0 NULL 0 [] (fun _ => 0) [].

Definition all_ok (y : Z) : bool := true.

(** Two buffers come back from the DMA engine, then 130 frames are
    pushed. *)

Definition demo_run : list action :=
  Interrupt (BIT 12) (esp32_desc_addr 0) false true
  :: Interrupt (BIT 12) (esp32_desc_addr 1) false false
  :: map Push (seqZ 0 130).

(** The state a routine returned with (the boot state if it did not
    return), and whether it returned. *)

Definition state_of (o : outcome state) : state :=
  match o with
  | Done st => st
  | _ => boot_state
  end.

Definition is_done (o : outcome state) : bool :=
  match o with
  | Done _ => true
  | _ => false
  end.

(** The state after [i2sInit] in that configuration; after three completed
    buffers, when the queue is full; after [demo_run], when 130 frames have
    been pushed.  And an allocator that refuses the third buffer. *)

Definition ready_state : state :=
  state_of (i2sInit 4 128 44100 esp32_consts esp32_desc_addr all_ok true boot_state).

Definition three_completions : list action :=
  [Interrupt (BIT 12) (esp32_desc_addr 0) false false;
   Interrupt (BIT 12) (esp32_desc_addr 1) false false;
   Interrupt (BIT 12) (esp32_desc_addr 2) false false].

Definition full_state : state :=
  state_of (run 4 128 esp32_consts esp32_desc_addr three_completions ready_state).

Definition pushed_state : state :=
  state_of (run 4 128 esp32_consts esp32_desc_addr demo_run ready_state).

Definition third_fails (y : Z) : bool := negb (y =? 2).

(** * Properties

    ** The divider search *)

Import Divider.

Lemma int32_small z : - 2 ^ 31 <= z < 2 ^ 31 -> int32 z = z.
Proof.
  intros H. unfold int32. rewrite Z.mod_small by lia. lia.
Qed.

Lemma for_loop_fold {S : Type} (body : Z -> S -> S) n :
  forall i s,
    for_loop n i body s = fold_left (fun s j => body j s) (seqZ i (Z.of_nat n)) s.
Proof.
  induction n as [|n IH]; intros i s.
  - reflexivity.
  - rewrite seqZ_cons by lia. cbn [for_loop fold_left].
    rewrite IH. do 2 f_equal; lia.
Qed.

Lemma for_range_fold {S : Type} (body : Z -> S -> S) lo hi s :
  for_range lo hi body s = fold_left (fun s j => body j s) (seqZ lo (hi - lo)) s.
Proof.
  unfold for_range. rewrite for_loop_fold.
  destruct (Z_le_gt_dec lo hi).
  - rewrite Z2Nat.id by lia. reflexivity.
  - replace (Z.to_nat (hi - lo)) with 0%nat by lia.
    rewrite !seqZ_nil by lia. reflexivity.
Qed.

Lemma fold_left_flat_map {A B S : Type} (f : S -> B -> S) (g : A -> list B) l :
  forall s,
    fold_left f (flat_map g l) s = fold_left (fun s a => fold_left f (g a) s) l s.
Proof.
  induction l as [|a l IH]; intros s; cbn [flat_map fold_left].
  - reflexivity.
  - rewrite fold_left_app. apply IH.
Qed.

Lemma fold_left_map {A B S : Type} (f : S -> B -> S) (g : A -> B) l :
  forall s, fold_left f (map g l) s = fold_left (fun s a => f s (g a)) l s.
Proof.
  induction l as [|a l IH]; intros s; cbn [map fold_left]; auto.
Qed.

Lemma fold_left_ext {A S : Type} (f g : S -> A -> S) l :
  (forall s a, f s a = g s a) -> forall s, fold_left f l s = fold_left g l s.
Proof.
  intros E. induction l as [|a l IH]; intros s; cbn [fold_left].
  - reflexivity.
  - rewrite E. apply IH.
Qed.

Lemma find_divider_fold rate fuzz :
  find_divider rate fuzz
  = fold_left (try_triple rate) (candidates (bits_limit fuzz)) best_init.
Proof.
  unfold find_divider, candidates.
  rewrite fold_left_flat_map, for_range_fold.
  change (64 - 2) with 62.
  apply fold_left_ext. intros b bck.

  rewrite fold_left_flat_map, for_range_fold.
  change (64 - 5) with 59.
  apply fold_left_ext. intros b' clkm.
  rewrite fold_left_map, for_range_fold. reflexivity.
Qed.

Section ArgMin.

Context {A S : Type} (cost : A -> Z) (scost : S -> Z) (mk : A -> S).
Hypothesis scost_mk : forall a, scost (mk a) = cost a.

Lemma fold_improve (l : list A) :
  forall s,
    (fold_left (improve cost scost mk) l s = s /\ forall a, In a l -> scost s <= cost a) \/
    (exists l1 a l2,
        l = l1 ++ a :: l2 /\ fold_left (improve cost scost mk) l s = mk a /\ cost a < scost s /\
        (forall x, In x l1 -> cost a < cost x) /\
        (forall x, In x l2 -> cost a <= cost x)).
Proof.
  induction l as [|a l IH]; intros s.
  - left. split; [reflexivity | intros a []].
  - cbn [fold_left].
    destruct (Z.ltb_spec (cost a) (scost s)) as [Hlt | Hge].
    + replace (improve cost scost mk s a) with (mk a)
        by (unfold improve; apply Z.ltb_lt in Hlt; rewrite Hlt; reflexivity).
      destruct (IH (mk a)) as [[Ef Hall] | (l1 & b & l2 & El & Ef & Hb & H1 & H2)].
      * right. exists [], a, l. rewrite scost_mk in Hall.
        split; [reflexivity |]. split; [exact Ef |]. split; [exact Hlt |].
        split; [intros x [] | exact Hall].
      * right. exists (a :: l1), b, l2. rewrite scost_mk in Hb.
        split; [subst l; reflexivity |]. split; [exact Ef |]. split; [lia |].
        split; [| exact H2]. intros x [<- | Hx]; [lia | auto].
    + replace (improve cost scost mk s a) with s
        by (unfold improve; apply Z.ltb_ge in Hge; rewrite Hge; reflexivity).
      destruct (IH s) as [[Ef Hall] | (l1 & b & l2 & El & Ef & Hb & H1 & H2)].
      * left. split; [assumption |]. intros x [<- | Hx]; auto.
      * right. exists (a :: l1), b, l2.
        split; [subst l; reflexivity |]. split; [exact Ef |]. split; [exact Hb |].
        split; [| exact H2]. intros x [<- | Hx]; [lia | auto].
Qed.

End ArgMin.

Lemma in_candidates limit t :
  In t (candidates limit) <->
  2 <= t_bck t < 64 /\ 5 <= t_clkm t < 64 /\ 16 <= t_bits t < limit.
Proof.
  unfold candidates. rewrite in_flat_map. split.
  - intros (bck & Hbck & H). apply in_flat_map in H as (clkm & Hclkm & H).
    apply in_map_iff in H as (bits & <- & Hbits).
    apply list_elem_of_In, elem_of_seqZ in Hbck, Hclkm, Hbits.
    cbn [t_bck t_clkm t_bits]. lia.
  - intros (Hbck & Hclkm & Hbits). destruct t as [bck clkm bits].
    cbn [t_bck t_clkm t_bits] in *.
    exists bck. split; [apply list_elem_of_In, elem_of_seqZ; lia |].
    apply in_flat_map. exists clkm.
    split; [apply list_elem_of_In, elem_of_seqZ; lia |].
    apply in_map_iff. exists bits.
    split; [reflexivity | apply list_elem_of_In, elem_of_seqZ; lia].
Qed.

Lemma bits_limit_cases fuzz : bits_limit fuzz = 17 \/ bits_limit fuzz = 20.
Proof. unfold bits_limit. destruct (fuzz =? 0); auto. Qed.

Lemma in_space_candidates fuzz t :
  in_space fuzz t <-> In t (candidates (bits_limit fuzz)).
Proof. unfold in_space. symmetry. apply in_candidates. Qed.

Lemma in_space_product fuzz t :
  in_space fuzz t -> 320 <= t_bck t * t_clkm t * t_bits t * 2 <= 150822.
Proof.
  intros (Hb & Hc & Hbits).
  assert (Hl : bits_limit fuzz <= 20)
    by (destruct (bits_limit_cases fuzz) as [-> | ->]; lia).
  assert (10 <= t_bck t * t_clkm t <= 3969) by nia.
  assert (160 <= t_bck t * t_clkm t * t_bits t <= 75411) by nia.
  lia.
Qed.

Lemma tstfreq_achieved fuzz t :
  in_space fuzz t -> tstfreq_of (t_bck t) (t_clkm t) (t_bits t) = achieved t.
Proof.
  intros H. pose proof (in_space_product _ _ H) as Hp.
  destruct H as (Hb & Hc & Hbits).
  assert (Hl : bits_limit fuzz <= 20)
    by (destruct (bits_limit_cases fuzz) as [-> | ->]; lia).
  assert (10 <= t_bck t * t_clkm t <= 3969) by nia.
  assert (160 <= t_bck t * t_clkm t * t_bits t <= 75411) by nia.
  unfold tstfreq_of, achieved.
  rewrite (int32_small (t_bck t * t_clkm t)) by lia.
  rewrite (int32_small (t_bck t * t_clkm t * t_bits t)) by lia.
  rewrite (int32_small (t_bck t * t_clkm t * t_bits t * 2)) by lia.
  rewrite Z.quot_div_nonneg by (unfold BASEFREQ; lia).
  apply int32_small.
  assert (0 <= BASEFREQ / (t_bck t * t_clkm t * t_bits t * 2) <= BASEFREQ).
  { split; [apply Z.div_pos; unfold BASEFREQ; lia |].
    apply Z.div_le_upper_bound; unfold BASEFREQ; nia. }
  unfold BASEFREQ in *. lia.
Qed.

Lemma achieved_bounds fuzz t :
  in_space fuzz t -> 1060 <= achieved t <= 500000.
Proof.
  intros H. pose proof (in_space_product _ _ H) as Hp. unfold achieved, BASEFREQ.
  split.
  - apply Z.div_le_lower_bound; lia.
  - apply Z.div_le_upper_bound; lia.
Qed.

Lemma ABS_abs x : - 2 ^ 31 < x -> ABS x = Z.abs x.
Proof.
  intros H. unfold ABS. destruct (Z.gtb_spec x 0).
  - lia.
  - rewrite int32_small; lia.
Qed.

Lemma code_error_error fuzz rate t :
  0 < rate <= INT_MAX -> in_space fuzz t -> code_error rate t = error rate t.
Proof.
  intros Hr H. unfold code_error, error.
  rewrite (tstfreq_achieved fuzz) by assumption.
  pose proof (achieved_bounds _ _ H). unfold INT_MAX in Hr.
  rewrite int32_small by lia. apply ABS_abs. lia.
Qed.

Lemma enum_ltb_lt a b : enum_ltb a b = true <-> enum_lt a b.
Proof. unfold enum_ltb, enum_lt. lia. Qed.

Lemma enum_lt_trans a b c : enum_lt a b -> enum_lt b c -> enum_lt a c.
Proof. unfold enum_lt. lia. Qed.

Lemma enum_lt_asym a b : enum_lt a b -> enum_lt b a -> False.
Proof. unfold enum_lt. lia. Qed.

Lemma ascending_sorted l : ascending l = true -> StronglySorted enum_lt l.
Proof.
  intros H. apply Sorted_StronglySorted.
  - intros a b c. apply enum_lt_trans.
  - induction l as [|a [|b l] IH]; constructor.
    + constructor.
    + constructor.
    + apply IH. cbn [ascending] in H. apply andb_prop in H. tauto.
    + constructor. apply enum_ltb_lt. cbn [ascending] in H.
      apply andb_prop in H. tauto.
Qed.

Lemma candidates_sorted fuzz : StronglySorted enum_lt (candidates (bits_limit fuzz)).
Proof.
  apply ascending_sorted.
  destruct (bits_limit_cases fuzz) as [-> | ->]; vm_compute; reflexivity.
Qed.

Lemma candidates_head fuzz :
  candidates (bits_limit fuzz) = Triple 2 5 16 :: tl (candidates (bits_limit fuzz)).
Proof.
  destruct (bits_limit_cases fuzz) as [-> | ->]; vm_compute; reflexivity.
Qed.

Lemma sorted_split {A : Type} (R : A -> A -> Prop) l1 a l2 :
  StronglySorted R (l1 ++ a :: l2) ->
  (forall x, In x l1 -> R x a) /\ (forall x, In x l2 -> R a x).
Proof.
  induction l1 as [|b l1 IH]; cbn [app]; intros H.
  - apply StronglySorted_inv in H as [_ H]. rewrite List.Forall_forall in H.
    split; [intros x [] | exact H].
  - apply StronglySorted_inv in H as [Hs Hb]. rewrite List.Forall_forall in Hb.
    destruct (IH Hs) as [H1 H2]. split; [| exact H2].
    intros x [<- | Hx]; [| auto]. apply Hb, in_elt.
Qed.

Lemma try_triple_improve rate b t :
  try_triple rate b t = improve (code_error rate) (best_error rate) best_of b t.
Proof. reflexivity. Qed.

Lemma triple_eta t : Triple (t_bck t) (t_clkm t) (t_bits t) = t.
Proof. destruct t; reflexivity. Qed.

Lemma best_error_best_of rate a : best_error rate (best_of a) = code_error rate a.
Proof. reflexivity. Qed.

(** The search returns the first candidate of least error. *)

Lemma find_divider_first_least rate fuzz :
  0 < rate <= INT_MAX ->
  exists l1 l2,
    candidates (bits_limit fuzz) = l1 ++ chosen (find_divider rate fuzz) :: l2 /\
    (forall x, In x l1 -> error rate (chosen (find_divider rate fuzz)) < error rate x) /\
    (forall x, In x l2 -> error rate (chosen (find_divider rate fuzz)) <= error rate x).
Proof.
  intros Hr.
  pose proof (fold_improve (code_error rate) (best_error rate) best_of
                (best_error_best_of rate) (candidates (bits_limit fuzz)) best_init) as Hf.
  rewrite <- (fold_left_ext _ _ _ (try_triple_improve rate)) in Hf.
  rewrite <- find_divider_fold in Hf.
  destruct Hf as [[Ef Hall] | (l1 & a & l2 & El & Ef & _ & H1 & H2)].
  - rewrite Ef. change (chosen best_init) with (Triple 2 5 16).
    assert (Hin : in_space fuzz (Triple 63 63 16)).
    { unfold in_space; cbn [t_bck t_clkm t_bits]; destruct (bits_limit_cases fuzz) as [-> | ->]; lia. }
    pose proof (Hall _ (proj1 (in_space_candidates _ _) Hin)) as Hlow.
    rewrite (code_error_error fuzz) in Hlow by assumption.
    change (error rate (Triple 63 63 16)) with (Z.abs (rate - 1259)) in Hlow.
    change (best_error rate best_init) with (ABS (int32 (rate - -10000))) in Hlow.
    unfold INT_MAX in Hr.
    assert (Hbig : 2 ^ 31 <= rate + 10000).
    { destruct (Z_lt_le_dec (rate + 10000) (2 ^ 31)) as [Hs | Hs]; [| exact Hs].
      rewrite int32_small, ABS_abs in Hlow; lia. }
    exists [], (tl (candidates (bits_limit fuzz))).
    split; [apply candidates_head |]. split; [intros x [] |].
    intros x Hx.
    assert (Hsp : in_space fuzz x).
    { apply in_space_candidates. rewrite candidates_head. right. exact Hx. }
    pose proof (achieved_bounds _ _ Hsp). unfold error.
    change (achieved (Triple 2 5 16)) with 500000. lia.
  - rewrite Ef. change (chosen (best_of a)) with (Triple (t_bck a) (t_clkm a) (t_bits a)).
    rewrite triple_eta.
    assert (Hc : forall x, In x (candidates (bits_limit fuzz)) ->
                           code_error rate x = error rate x).
    { intros x Hx. apply (code_error_error fuzz); [assumption |].
      apply in_space_candidates, Hx. }
    exists l1, l2. split; [exact El |]. rewrite El in Hc. split.
    + intros x Hx. rewrite <- !Hc by (apply in_or_app; cbn; auto). auto.
    + intros x Hx. rewrite <- !Hc by (apply in_or_app; cbn; auto). auto.
Qed.

Lemma chosen_in_space rate fuzz :
  0 < rate <= INT_MAX -> in_space fuzz (chosen (find_divider rate fuzz)).
Proof.
  intros Hr. destruct (find_divider_first_least rate fuzz Hr) as (l1 & l2 & El & _).
  apply in_space_candidates. rewrite El. apply in_elt.
Qed.

Lemma i2sSetRate_trace K rate fuzz st :
  trace (i2sSetRate K rate fuzz st)
  = trace st ++
    [EvCall (printf rate (bestclkmdiv (find_divider rate fuzz))
                    (bestbckdiv (find_divider rate fuzz))
                    (bestbits (find_divider rate fuzz))
                    (tstfreq_of (bestbckdiv (find_divider rate fuzz))
                                (bestclkmdiv (find_divider rate fuzz))
                                (bestbits (find_divider rate fuzz))))].
Proof. reflexivity. Qed.

(** C1. For every positive rate and either value of the fuzzing flag,
    [i2sSetRate] selects a triple inside the search bounds whose achieved
    frequency BASEFREQ/(bck*main*bits*2) has the least absolute error
    over the whole search space; this triple and its frequency are what it
    reports. *)

Theorem i2sSetRate_least_error (rate enaWordlenFuzzing : Z) :
  0 < rate <= INT_MAX ->
  let t := chosen (find_divider rate enaWordlenFuzzing) in
  (2 <= t_bck t < 64 /\ 5 <= t_clkm t < 64 /\
   16 <= t_bits t < (if enaWordlenFuzzing =? 0 then 17 else 20)) /\
  (forall c, in_space enaWordlenFuzzing c -> error rate t <= error rate c) /\
  (forall K st,
      trace (i2sSetRate K rate enaWordlenFuzzing st)
      = trace st ++ [EvCall (printf rate (t_clkm t) (t_bck t) (t_bits t) (achieved t))]).
Proof.
  intros Hr t.
  pose proof (chosen_in_space rate enaWordlenFuzzing Hr) as Hin. fold t in Hin.
  split; [exact Hin |]. split.
  - intros c Hc.
    destruct (find_divider_first_least rate enaWordlenFuzzing Hr)
      as (l1 & l2 & El & H1 & H2). fold t in El, H1, H2.
    apply in_space_candidates in Hc. rewrite El in Hc.
    apply in_app_or in Hc as [Hc | [<- | Hc]].
    + apply Z.lt_le_incl, H1, Hc.
    + reflexivity.
    + apply H2, Hc.
  - intros K st. rewrite i2sSetRate_trace.
    rewrite <- (tstfreq_achieved enaWordlenFuzzing t Hin). reflexivity.
Qed.

(** C6. The triple [i2sSetRate] returns is the first one, in the order
    ascending bck-divider, then main-clock divider, then bits, that reaches
    the least error: every earlier candidate has a strictly larger error and
    no later one a smaller error; and a candidate whose error equals that
    of the current best leaves the best unchanged. *)

Theorem i2sSetRate_first_wins (rate enaWordlenFuzzing : Z) :
  0 < rate <= INT_MAX ->
  let t := chosen (find_divider rate enaWordlenFuzzing) in
  in_space enaWordlenFuzzing t /\
  (forall c, in_space enaWordlenFuzzing c -> enum_lt c t -> error rate t < error rate c) /\
  (forall c, in_space enaWordlenFuzzing c -> enum_lt t c -> error rate t <= error rate c) /\
  (forall bckdiv clkmdiv bits b,
      ABS (int32 (rate - tstfreq_of bckdiv clkmdiv bits)) = ABS (int32 (rate - bestfreq b)) ->
      try_divider rate bckdiv clkmdiv bits b = b).
Proof.
  intros Hr t.
  pose proof (chosen_in_space rate enaWordlenFuzzing Hr) as Hin. fold t in Hin.
  destruct (find_divider_first_least rate enaWordlenFuzzing Hr)
    as (l1 & l2 & El & H1 & H2). fold t in El, H1, H2.
  pose proof (candidates_sorted enaWordlenFuzzing) as Hs. rewrite El in Hs.
  apply sorted_split in Hs as [Hbefore Hafter].
  split; [exact Hin |]. split; [| split].
  - intros c Hc Hlt. apply in_space_candidates in Hc. rewrite El in Hc.
    apply in_app_or in Hc as [Hc | [<- | Hc]].
    + apply H1, Hc.
    + destruct (enum_lt_asym _ _ Hlt Hlt).
    + destruct (enum_lt_asym _ _ Hlt (Hafter _ Hc)).
  - intros c Hc Hlt. apply in_space_candidates in Hc. rewrite El in Hc.
    apply in_app_or in Hc as [Hc | [<- | Hc]].
    + apply Z.lt_le_incl, H1, Hc.
    + reflexivity.
    + apply H2, Hc.
  - intros bckdiv clkmdiv bits b E. unfold try_divider. cbn zeta.
    rewrite E, Z.ltb_irrefl. reflexivity.
Qed.

(** ** Memory *)

Lemma store_byte_ok p i v h n :
  buffer_len p h = Some n -> 0 <= i < n ->
  exists h',
    store_byte p i v h = Some h' /\
    (forall q, buffer_len q h' = buffer_len q h) /\
    load_byte p i h' = Some (v mod 256) /\
    (forall j, j <> i -> load_byte p j h' = load_byte p j h).
Proof.
  intros Hlen Hi. destruct p as [|b]; [discriminate |].
  cbn [buffer_len] in Hlen. unfold store_byte.
  destruct (h !! b) as [bytes|] eqn:Hb; [| discriminate].
  cbn in Hlen. injection Hlen as <-.
  assert (Hbl : (b < length h)%nat) by (eapply lookup_lt_Some; eauto).
  replace ((0 <=? i) && (i <? Z.of_nat (length bytes))) with true
    by (symmetry; apply andb_true_intro; split; lia).
  eexists. split; [reflexivity |]. split; [| split].
  - intros [|c]; [reflexivity |]. cbn [buffer_len].
    destruct (decide (b = c)) as [<- | Hne].
    + rewrite list_lookup_insert_eq, Hb by assumption. cbn.
      rewrite length_insert. reflexivity.
    + rewrite list_lookup_insert_ne by assumption. reflexivity.
  - cbn [load_byte]. rewrite list_lookup_insert_eq by assumption. cbn.
    replace (0 <=? i) with true by lia.
    apply list_lookup_insert_eq. lia.
  - intros j Hj. cbn [load_byte].
    rewrite list_lookup_insert_eq, Hb by assumption. cbn.
    destruct (0 <=? j) eqn:Hj0; [| reflexivity].
    apply list_lookup_insert_ne. lia.
Qed.

Lemma bytes_word v :
  v mod 256 + Z.shiftl (Z.shiftr v 8 mod 256) 8 + Z.shiftl (Z.shiftr v 16 mod 256) 16
  + Z.shiftl (Z.shiftr v 24 mod 256) 24 = uint32 v.
Proof.
  unfold uint32. rewrite !Z.shiftl_mul_pow2, !Z.shiftr_div_pow2 by lia.
  change (2 ^ 8) with 256. change (2 ^ 16) with 65536.
  change (2 ^ 24) with 16777216. change (2 ^ 32) with 4294967296.
  Z.div_mod_to_equations. lia.
Qed.

Lemma store_word_ok p i v h n :
  buffer_len p h = Some n -> 0 <= i -> 4 * i + 3 < n ->
  exists h',
    store_word p i v h = Some h' /\
    (forall q, buffer_len q h' = buffer_len q h) /\
    load_word p i h' = Some (uint32 v).
Proof.
  intros Hlen Hi Hn. unfold store_word.
  destruct (store_byte_ok p (4 * i) v h n Hlen ltac:(lia)) as (h0 & -> & L0 & G0 & _).
  cbn [mbind option_bind].
  destruct (store_byte_ok p (4 * i + 1) (Z.shiftr v 8) h0 n) as (h1 & -> & L1 & G1 & K1);
    [rewrite L0; assumption | lia |].
  cbn [mbind option_bind].
  destruct (store_byte_ok p (4 * i + 2) (Z.shiftr v 16) h1 n) as (h2 & -> & L2 & G2 & K2);
    [rewrite L1, L0; assumption | lia |].
  cbn [mbind option_bind].
  destruct (store_byte_ok p (4 * i + 3) (Z.shiftr v 24) h2 n) as (h3 & -> & L3 & G3 & K3);
    [rewrite L2, L1, L0; assumption | lia |].
  exists h3. split; [reflexivity |]. split.
  - intros q. rewrite L3, L2, L1, L0. reflexivity.
  - unfold load_word.
    rewrite (K3 (4 * i)), (K2 (4 * i)), (K1 (4 * i)), G0 by lia.
    cbn [mbind option_bind].
    rewrite (K3 (4 * i + 1)), (K2 (4 * i + 1)), G1 by lia.
    cbn [mbind option_bind].
    rewrite (K3 (4 * i + 2)), G2 by lia.
    cbn [mbind option_bind].
    rewrite G3. cbn [mbind option_bind].
    f_equal. apply bytes_word.
Qed.

Lemma store_word_NULL i v h : store_word NULL i v h = None.
Proof. reflexivity. Qed.

(** ** [i2sPushSample] *)

Section DriverProofs.

Variable I2SDMABUFCNT : Z.
Variable I2SDMABUFLEN : Z.
Variable I2S_DEFAULT_SAMPLE_RATE : Z.
Variable K : i2s_consts.
Variable desc_addr : Z -> Z.

Hypothesis buflen_pos : 0 < I2SDMABUFLEN.
Hypothesis buflen_int : I2SDMABUFLEN <= INT_MAX.

Lemma int32_1 : int32 (0 + 1) = 1.
Proof. reflexivity. Qed.

(** The push that has to fetch a buffer, when one is queued. *)

Lemma push_refill sample st q tok rest :
  currDMABuffPos st = I2SDMABUFLEN \/ currDMABuff st = NULL ->
  dmaQueue st = Some q ->
  items q = tok :: rest ->
  buffer_len tok (heap st) = Some (4 * I2SDMABUFLEN) ->
  exists h',
    store_word tok 0 sample (heap st) = Some h' /\
    i2sPushSample I2SDMABUFLEN sample st
    = Done (State (i2sBuf st) (i2sBufDesc st) (Some (Queue (uxLength q) rest))
                  (underrunCnt st) tok 1 h' (regs st)
                  ((trace st ++ [EvQueueReceive tok]) ++ [EvStore tok 0 sample])).
Proof.
  intros Hneed Hq Hitems Hlen.
  destruct (store_word_ok tok 0 sample (heap st) _ Hlen) as (h' & Hst & _); [lia | lia |].
  exists h'. split; [exact Hst |].
  unfold i2sPushSample.
  replace ((currDMABuffPos st =? I2SDMABUFLEN) || bool_decide (currDMABuff st = NULL))
    with true.
  2:{ symmetry. apply orb_true_iff. destruct Hneed as [H | H].
      - left. lia.
      - right. apply bool_decide_eq_true. exact H. }
  rewrite Hq. unfold xQueueReceive. rewrite Hitems.
  cbn [mbind outcome_bind currDMABuff currDMABuffPos heap set_currDMABuffPos
       set_currDMABuff log set_dmaQueue].
  rewrite Hst. reflexivity.
Qed.

Lemma push_refill_empty sample st q :
  currDMABuffPos st = I2SDMABUFLEN \/ currDMABuff st = NULL ->
  dmaQueue st = Some q ->
  items q = [] ->
  i2sPushSample I2SDMABUFLEN sample st = Blocked.
Proof.
  intros Hneed Hq Hitems. unfold i2sPushSample.
  replace ((currDMABuffPos st =? I2SDMABUFLEN) || bool_decide (currDMABuff st = NULL))
    with true.
  2:{ symmetry. apply orb_true_iff. destruct Hneed as [H | H].
      - left. lia.
      - right. apply bool_decide_eq_true. exact H. }
  rewrite Hq. unfold xQueueReceive. rewrite Hitems. reflexivity.
Qed.

(** The push that still has room in its buffer. *)

Lemma push_room sample st :
  currDMABuff st <> NULL ->
  0 <= currDMABuffPos st < I2SDMABUFLEN ->
  buffer_len (currDMABuff st) (heap st) = Some (4 * I2SDMABUFLEN) ->
  exists h',
    store_word (currDMABuff st) (currDMABuffPos st) sample (heap st) = Some h' /\
    i2sPushSample I2SDMABUFLEN sample st
    = Done (State (i2sBuf st) (i2sBufDesc st) (dmaQueue st) (underrunCnt st)
                  (currDMABuff st) (currDMABuffPos st + 1) h' (regs st)
                  (trace st ++ [EvStore (currDMABuff st) (currDMABuffPos st) sample])).
Proof.
  intros Hbuf Hpos Hlen.
  destruct (store_word_ok _ (currDMABuffPos st) sample _ _ Hlen) as (h' & Hst & _);
    [lia | lia |].
  exists h'. split; [exact Hst |].
  unfold i2sPushSample.
  replace ((currDMABuffPos st =? I2SDMABUFLEN) || bool_decide (currDMABuff st = NULL))
    with false.
  2:{ symmetry. apply orb_false_iff. split; [lia |].
      apply bool_decide_eq_false. exact Hbuf. }
  cbn [mbind outcome_bind]. rewrite Hst.
  cbn [log set_heap set_currDMABuffPos currDMABuff currDMABuffPos i2sBuf i2sBufDesc
       dmaQueue underrunCnt regs trace heap].
  unfold INT_MAX in buflen_int. rewrite int32_small by lia. reflexivity.
Qed.

(** C3. A push that holds no buffer, or whose offset has reached
    I2SDMABUFLEN, first takes the next buffer from the queue (waiting while
    the queue is empty) and restarts at offset zero; every push then stores
    the frame at the current offset and advances the offset by one; the
    buffer table, the descriptors, the underrun counter and the registers
    stay as they were. *)

Theorem i2sPushSample_step (sample : Z) (st : state) (q : queue) :
  dmaQueue st = Some q ->
  (currDMABuffPos st = I2SDMABUFLEN \/ currDMABuff st = NULL ->
   items q = [] ->
   i2sPushSample I2SDMABUFLEN sample st = Blocked) /\
  (forall tok rest,
      currDMABuffPos st = I2SDMABUFLEN \/ currDMABuff st = NULL ->
      items q = tok :: rest ->
      buffer_len tok (heap st) = Some (4 * I2SDMABUFLEN) ->
      exists st',
        i2sPushSample I2SDMABUFLEN sample st = Done st' /\
        currDMABuff st' = tok /\ currDMABuffPos st' = 1 /\
        dmaQueue st' = Some (Queue (uxLength q) rest) /\
        load_word tok 0 (heap st') = Some (uint32 sample) /\
        trace st' = trace st ++ [EvQueueReceive tok; EvStore tok 0 sample] /\
        i2sBuf st' = i2sBuf st /\ i2sBufDesc st' = i2sBufDesc st /\
        underrunCnt st' = underrunCnt st /\ regs st' = regs st) /\
  (currDMABuff st <> NULL ->
   0 <= currDMABuffPos st < I2SDMABUFLEN ->
   buffer_len (currDMABuff st) (heap st) = Some (4 * I2SDMABUFLEN) ->
   exists st',
     i2sPushSample I2SDMABUFLEN sample st = Done st' /\
     currDMABuff st' = currDMABuff st /\
     currDMABuffPos st' = currDMABuffPos st + 1 /\
     dmaQueue st' = dmaQueue st /\
     load_word (currDMABuff st) (currDMABuffPos st) (heap st') = Some (uint32 sample) /\
     trace st' = trace st ++ [EvStore (currDMABuff st) (currDMABuffPos st) sample] /\
     i2sBuf st' = i2sBuf st /\ i2sBufDesc st' = i2sBufDesc st /\
     underrunCnt st' = underrunCnt st /\ regs st' = regs st).
Proof.
  intros Hq. split; [| split].
  - intros Hneed Hitems. eapply push_refill_empty; eauto.
  - intros tok rest Hneed Hitems Hlen.
    destruct (push_refill sample st q tok rest Hneed Hq Hitems Hlen) as (h' & Hst & ->).
    eexists. split; [reflexivity |].
    cbn [currDMABuff currDMABuffPos dmaQueue heap trace i2sBuf i2sBufDesc underrunCnt regs].
    rewrite <- app_assoc.
    destruct (store_word_ok tok 0 sample (heap st) _ Hlen) as (h'' & Hst' & _ & Hld);
      [lia | lia |].
    rewrite Hst in Hst'. injection Hst' as <-. auto 10.
  - intros Hbuf Hpos Hlen.
    destruct (push_room sample st Hbuf Hpos Hlen) as (h' & Hst & ->).
    eexists. split; [reflexivity |].
    cbn [currDMABuff currDMABuffPos dmaQueue heap trace i2sBuf i2sBufDesc underrunCnt regs].
    destruct (store_word_ok _ (currDMABuffPos st) sample (heap st) _ Hlen)
      as (h'' & Hst' & _ & Hld); [lia | lia |].
    rewrite Hst in Hst'. injection Hst' as <-. auto 10.
Qed.

End DriverProofs.

(** ** [i2s_isr] *)

Ltac state_simpl :=
  cbv [call log set_i2sBuf set_i2sBufDesc set_dmaQueue set_underrunCnt
       set_currDMABuff set_currDMABuffPos set_heap WRITE_PERI_REG
       SET_PERI_REG_MASK CLEAR_PERI_REG_MASK SET_PERI_REG_BITS set_regs
       i2sBuf i2sBufDesc dmaQueue underrunCnt currDMABuff currDMABuffPos heap
       regs trace].

Ltac proj_simpl :=
  cbn [call log set_i2sBuf set_i2sBufDesc set_dmaQueue set_underrunCnt
       set_currDMABuff set_currDMABuffPos set_heap WRITE_PERI_REG
       SET_PERI_REG_MASK CLEAR_PERI_REG_MASK SET_PERI_REG_BITS set_regs
       i2sBuf i2sBufDesc dmaQueue underrunCnt currDMABuff currDMABuffPos heap
       regs trace].

Section IsrProofs.

Variable I2SDMABUFCNT : Z.
Variable K : i2s_consts.
Variable desc_addr : Z -> Z.

Lemma desc_at_frame a st st' :
  i2sBufDesc st' = i2sBufDesc st ->
  desc_at I2SDMABUFCNT desc_addr a st' = desc_at I2SDMABUFCNT desc_addr a st.
Proof. intros E. unfold desc_at. rewrite E. reflexivity. Qed.

Lemma i2s_isr_idle rx tx st :
  regs st I2S_INT_ST_REG = 0 ->
  i2s_isr I2SDMABUFCNT K desc_addr rx tx st = Done st.
Proof. intros H. unfold i2s_isr, READ_PERI_REG. rewrite H. reflexivity. Qed.

Lemma i2s_isr_other rx tx st :
  regs st I2S_INT_ST_REG <> 0 ->
  Z.land (regs st I2S_INT_ST_REG) (I2S_OUT_EOF_INT_ST K) = 0 ->
  i2s_isr I2SDMABUFCNT K desc_addr rx tx st
  = Done (WRITE_PERI_REG I2S_INT_CLR_REG 0xffffffff st).
Proof.
  intros H0 H1. unfold i2s_isr, READ_PERI_REG.
  apply Z.eqb_neq in H0. rewrite H0, H1. reflexivity.
Qed.

Lemma i2s_isr_full rx tx st q d oldest rest :
  Z.land (regs st I2S_INT_ST_REG) (I2S_OUT_EOF_INT_ST K) <> 0 ->
  dmaQueue st = Some q ->
  desc_at I2SDMABUFCNT desc_addr (regs st I2S_OUT_EOF_DES_ADDR_REG) st = Some d ->
  uxMessagesWaiting q = uxLength q ->
  items q = oldest :: rest ->
  i2s_isr I2SDMABUFCNT K desc_addr rx tx st
  = Done (State (i2sBuf st) (i2sBufDesc st)
                (Some (Queue (uxLength q) (rest ++ [Lldesc.buf d])))
                (int32 (underrunCnt st + 1)) (currDMABuff st) (currDMABuffPos st)
                (heap st) (reg_write I2S_INT_CLR_REG 0xffffffff (regs st))
                (trace st ++ [EvQueueReceiveFromISR (Some oldest);
                              EvQueueSendFromISR (Lldesc.buf d) true]
                          ++ (if rx || tx then [EvCall portYIELD_FROM_ISR] else []))).
Proof.
  intros H1 Hq Hd Hfull Hitems.
  assert (H0 : regs st I2S_INT_ST_REG <> 0).
  { intros E. rewrite E in H1. apply H1. reflexivity. }
  unfold i2s_isr, READ_PERI_REG.
  apply Z.eqb_neq in H0, H1. rewrite H0, H1.
  cbn [WRITE_PERI_REG set_regs dmaQueue regs]. rewrite Hq.
  unfold xQueueIsQueueFullFromISR. rewrite Hfull, Z.eqb_refl.
  unfold xQueueReceiveFromISR. rewrite Hitems.
  replace (reg_write I2S_INT_CLR_REG 4294967295 (regs st) I2S_OUT_EOF_DES_ADDR_REG)
    with (regs st I2S_OUT_EOF_DES_ADDR_REG) by reflexivity.
  rewrite (desc_at_frame _ st) by reflexivity.
  rewrite Hd.
  unfold xQueueSendFromISR, uxMessagesWaiting. cbn [items uxLength].
  assert (Hlen : (Z.of_nat (length rest) <? uxLength q) = true).
  { unfold uxMessagesWaiting in Hfull. rewrite Hitems in Hfull.
    cbn [length] in Hfull. lia. }
  rewrite Hlen.
  rewrite (bool_decide_eq_true_2 (is_Some (Some oldest))) by eauto.
  destruct rx, tx; cbn [orb andb mbind outcome_bind]; state_simpl;
    rewrite <- ?app_assoc; reflexivity.
Qed.

Lemma i2s_isr_room rx tx st q d :
  Z.land (regs st I2S_INT_ST_REG) (I2S_OUT_EOF_INT_ST K) <> 0 ->
  dmaQueue st = Some q ->
  desc_at I2SDMABUFCNT desc_addr (regs st I2S_OUT_EOF_DES_ADDR_REG) st = Some d ->
  uxMessagesWaiting q < uxLength q ->
  i2s_isr I2SDMABUFCNT K desc_addr rx tx st
  = Done (State (i2sBuf st) (i2sBufDesc st)
                (Some (Queue (uxLength q) (items q ++ [Lldesc.buf d])))
                (underrunCnt st) (currDMABuff st) (currDMABuffPos st)
                (heap st) (reg_write I2S_INT_CLR_REG 0xffffffff (regs st))
                (trace st ++ [EvQueueSendFromISR (Lldesc.buf d) true]
                          ++ (if tx then [EvCall portYIELD_FROM_ISR] else []))).
Proof.
  intros H1 Hq Hd Hroom.
  assert (H0 : regs st I2S_INT_ST_REG <> 0).
  { intros E. rewrite E in H1. apply H1. reflexivity. }
  unfold i2s_isr, READ_PERI_REG.
  apply Z.eqb_neq in H0, H1. rewrite H0, H1.
  cbn [WRITE_PERI_REG set_regs dmaQueue regs]. rewrite Hq.
  unfold xQueueIsQueueFullFromISR.
  replace (uxMessagesWaiting q =? uxLength q) with false by lia.
  replace (reg_write I2S_INT_CLR_REG 4294967295 (regs st) I2S_OUT_EOF_DES_ADDR_REG)
    with (regs st I2S_OUT_EOF_DES_ADDR_REG) by reflexivity.
  rewrite (desc_at_frame _ st) by reflexivity.
  rewrite Hd.
  unfold xQueueSendFromISR.
  replace (uxMessagesWaiting q <? uxLength q) with true by lia.
  destruct tx; cbn [orb andb mbind outcome_bind]; state_simpl;
    rewrite <- ?app_assoc; reflexivity.
Qed.

Lemma dequeues_app tr1 tr2 : dequeues (tr1 ++ tr2) = (dequeues tr1 + dequeues tr2)%nat.
Proof. unfold dequeues. rewrite List.filter_app, length_app. reflexivity. Qed.

(** The handler leaves the producer's cursor, the heap and the two arrays
    alone, dequeues nothing on the producer's behalf and stores nothing
    into a buffer. *)

Lemma i2s_isr_frame L rx tx st st' :
  i2s_isr I2SDMABUFCNT K desc_addr rx tx st = Done st' ->
  currDMABuff st' = currDMABuff st /\ currDMABuffPos st' = currDMABuffPos st /\
  heap st' = heap st /\ i2sBuf st' = i2sBuf st /\ i2sBufDesc st' = i2sBufDesc st /\
  dequeues (trace st') = dequeues (trace st) /\
  (Forall (store_in_bounds L) (trace st) -> Forall (store_in_bounds L) (trace st')).
Proof.
  unfold i2s_isr, READ_PERI_REG.
  destruct (regs st I2S_INT_ST_REG =? 0).
  { intros [= <-]. auto 10. }
  destruct (Z.land (regs st I2S_INT_ST_REG) (I2S_OUT_EOF_INT_ST K) =? 0).
  { cbn [mbind outcome_bind]. intros [= <-]. state_simpl. auto 10. }
  cbn [WRITE_PERI_REG set_regs dmaQueue].
  destruct (dmaQueue st) as [q|]; [| discriminate].
  destruct (xQueueIsQueueFullFromISR q).
  - destruct (xQueueReceiveFromISR q) as [q1 dummy].
    match goal with |- context [desc_at ?n ?f ?a ?s] => destruct (desc_at n f a s) end;
      [| discriminate].
    destruct (xQueueSendFromISR q1 _) as [q2 sent].
    cbn [mbind outcome_bind].
    destruct (false || rx && bool_decide (is_Some dummy) || tx && sent);
      intros [= <-]; state_simpl; rewrite ?dequeues_app, ?Forall_app; cbn;
      repeat split; auto; try lia; repeat constructor.
  - match goal with |- context [desc_at ?n ?f ?a ?s] => destruct (desc_at n f a s) end;
      [| discriminate].
    destruct (xQueueSendFromISR q _) as [q2 sent].
    cbn [mbind outcome_bind].
    destruct (false || tx && sent);
      intros [= <-]; state_simpl; rewrite ?dequeues_app, ?Forall_app; cbn;
      repeat split; auto; try lia; repeat constructor.
Qed.

End IsrProofs.

(** ** Runs *)

Lemma next_div_mod L k :
  0 < L -> 1 <= k ->
  ((k - 1) mod L = L - 1 -> k mod L = 0 /\ k / L = (k - 1) / L + 1) /\
  ((k - 1) mod L <> L - 1 -> k mod L = (k - 1) mod L + 1 /\ k / L = (k - 1) / L).
Proof.
  intros HL Hk.
  pose proof (Z.div_mod (k - 1) L ltac:(lia)) as E.
  pose proof (Z.mod_pos_bound (k - 1) L HL) as B.
  split; intros Hr.
  - assert (Ek : k = L * ((k - 1) / L + 1) + 0) by lia.
    split.
    + symmetry. apply (Z.mod_unique_pos k L ((k - 1) / L + 1) 0); [lia | exact Ek].
    + symmetry. apply (Z.div_unique_pos k L ((k - 1) / L + 1) 0); [lia | exact Ek].
  - assert (Ek : k = L * ((k - 1) / L) + ((k - 1) mod L + 1)) by lia.
    split.
    + symmetry. apply (Z.mod_unique_pos k L ((k - 1) / L) ((k - 1) mod L + 1)); [lia | exact Ek].
    + symmetry. apply (Z.div_unique_pos k L ((k - 1) / L) ((k - 1) mod L + 1)); [lia | exact Ek].
Qed.

Section RunProofs.

Variable I2SDMABUFCNT : Z.
Variable I2SDMABUFLEN : Z.
Variable K : i2s_consts.
Variable desc_addr : Z -> Z.

Hypothesis buflen_pos : 0 < I2SDMABUFLEN.
Hypothesis buflen_int : I2SDMABUFLEN <= INT_MAX.

(** What a push that returned has done to the producer's cursor and to the
    log. *)

Lemma push_done sample st st' :
  i2sPushSample I2SDMABUFLEN sample st = Done st' ->
  currDMABuff st' <> NULL /\
  (((currDMABuffPos st = I2SDMABUFLEN \/ currDMABuff st = NULL) /\
    currDMABuffPos st' = 1 /\
    trace st' = trace st ++ [EvQueueReceive (currDMABuff st'); EvStore (currDMABuff st') 0 sample]) \/
   (currDMABuffPos st <> I2SDMABUFLEN /\ currDMABuff st <> NULL /\
    currDMABuff st' = currDMABuff st /\
    currDMABuffPos st' = int32 (currDMABuffPos st + 1) /\
    trace st' = trace st ++ [EvStore (currDMABuff st) (currDMABuffPos st) sample])).
Proof.
  unfold i2sPushSample.
  destruct ((currDMABuffPos st =? I2SDMABUFLEN) || bool_decide (currDMABuff st = NULL))
    eqn:Hneed.
  - destruct (dmaQueue st) as [q|]; [| discriminate].
    destruct (xQueueReceive q) as [[q' item]|]; [| discriminate].
    cbn [mbind outcome_bind].
    match goal with |- context [store_word ?p ?i ?v ?h] =>
      destruct (store_word p i v h) eqn:Hst end; [| discriminate].
    intros [= <-]. proj_simpl. split.
    + intros ->. discriminate.
    + left. apply orb_true_iff in Hneed.
      split; [| split; [reflexivity | rewrite <- app_assoc; reflexivity]].
      destruct Hneed as [H | H]; [left; lia | right].
      apply bool_decide_eq_true in H. exact H.
  - cbn [mbind outcome_bind].
    destruct (store_word (currDMABuff st) (currDMABuffPos st) sample (heap st)) eqn:Hst;
      [| discriminate].
    intros [= <-]. proj_simpl. apply orb_false_iff in Hneed as [H1 H2].
    apply bool_decide_eq_false in H2. split; [exact H2 |].
    right. repeat split; auto. lia.
Qed.

Lemma push_counts k d0 sample st st' :
  producer_after I2SDMABUFLEN k d0 st -> 0 <= k ->
  i2sPushSample I2SDMABUFLEN sample st = Done st' ->
  producer_after I2SDMABUFLEN (k + 1) d0 st'.
Proof.
  intros Hinv Hk Hpush. apply push_done in Hpush as [Hbuf Hcase].
  right. unfold INT_MAX in buflen_int.
  destruct Hinv as [(-> & Hnull & Hpos & Hd) | (Hk1 & Hnn & Hpos & Hd)].
  - destruct Hcase as [(_ & Hp & Htr) | (_ & Hc & _)]; [| contradiction].
    split; [lia |]. split; [exact Hbuf |]. rewrite Hp, Htr, dequeues_app.
    change (0 + 1 - 1) with 0. rewrite Z.mod_0_l, Z.div_0_l by lia.
    cbn. lia.
  - replace (k + 1 - 1) with k by lia.
    pose proof (Z.mod_pos_bound (k - 1) I2SDMABUFLEN buflen_pos) as B.
    destruct (next_div_mod I2SDMABUFLEN k buflen_pos Hk1) as [Hwrap Hnext].
    destruct Hcase as [([Hfull | Hnull] & Hp & Htr) | (Hnf & _ & _ & Hp & Htr)].
    + destruct Hwrap as [Em Ed]; [lia |].
      split; [lia |]. split; [exact Hbuf |]. rewrite Hp, Htr, dequeues_app, Em, Ed.
      cbn. lia.
    + contradiction.
    + destruct Hnext as [Em Ed]; [lia |].
      split; [lia |]. split; [exact Hbuf |].
      rewrite Hp, Htr, dequeues_app, Em, Ed, int32_small by lia. cbn. lia.
Qed.

Lemma raise_interrupt_frame status a st :
  currDMABuff (raise_interrupt status a st) = currDMABuff st /\
  currDMABuffPos (raise_interrupt status a st) = currDMABuffPos st /\
  heap (raise_interrupt status a st) = heap st /\
  i2sBuf (raise_interrupt status a st) = i2sBuf st /\
  i2sBufDesc (raise_interrupt status a st) = i2sBufDesc st /\
  dmaQueue (raise_interrupt status a st) = dmaQueue st /\
  underrunCnt (raise_interrupt status a st) = underrunCnt st /\
  trace (raise_interrupt status a st) = trace st.
Proof. repeat split. Qed.

Lemma step_counts k d0 a st st' :
  producer_after I2SDMABUFLEN k d0 st -> 0 <= k ->
  step I2SDMABUFCNT I2SDMABUFLEN K desc_addr a st = Done st' ->
  producer_after I2SDMABUFLEN (k + Z.of_nat (pushes [a])) d0 st'.
Proof.
  intros Hinv Hk. destruct a as [status addr rx tx | sample]; cbn [step].
  - intros H. apply (i2s_isr_frame _ _ _ I2SDMABUFLEN) in H
      as (Hb & Hp & _ & _ & _ & Hd & _).
    destruct (raise_interrupt_frame status addr st) as (Hb' & Hp' & _ & _ & _ & _ & _ & Ht').
    rewrite Hb' in Hb. rewrite Hp' in Hp. rewrite Ht' in Hd.
    change (Z.of_nat (pushes [Interrupt status addr rx tx])) with 0.
    rewrite Z.add_0_r. unfold producer_after in *. rewrite Hb, Hp, Hd. exact Hinv.
  - apply push_counts; assumption.
Qed.

Lemma pushes_cons a acts : pushes (a :: acts) = (pushes [a] + pushes acts)%nat.
Proof. unfold pushes. cbn [List.filter]. destruct (is_push a); reflexivity. Qed.

Lemma run_counts acts :
  forall k d0 st st',
    producer_after I2SDMABUFLEN k d0 st -> 0 <= k ->
    run I2SDMABUFCNT I2SDMABUFLEN K desc_addr acts st = Done st' ->
    producer_after I2SDMABUFLEN (k + Z.of_nat (pushes acts)) d0 st'.
Proof.
  induction acts as [|a acts IH]; intros k d0 st st' Hinv Hk; cbn [run].
  - intros [= <-]. change (Z.of_nat (pushes [])) with 0. rewrite Z.add_0_r. exact Hinv.
  - destruct (step I2SDMABUFCNT I2SDMABUFLEN K desc_addr a st) as [st1| |] eqn:Hs;
      cbn [mbind outcome_bind]; try discriminate.
    intros Hrun. rewrite pushes_cons, Nat2Z.inj_add, Z.add_assoc.
    eapply IH; [| | exact Hrun].
    + eapply step_counts; eassumption.
    + lia.
Qed.

(** The offset stays within [0, I2SDMABUFLEN] and every store is below
    I2SDMABUFLEN. *)

Lemma step_bounds a st st' :
  0 <= currDMABuffPos st <= I2SDMABUFLEN ->
  step I2SDMABUFCNT I2SDMABUFLEN K desc_addr a st = Done st' ->
  0 <= currDMABuffPos st' <= I2SDMABUFLEN /\
  (Forall (store_in_bounds I2SDMABUFLEN) (trace st) ->
   Forall (store_in_bounds I2SDMABUFLEN) (trace st')).
Proof.
  intros Hpos. destruct a as [status addr rx tx | sample]; cbn [step].
  - intros H. apply (i2s_isr_frame _ _ _ I2SDMABUFLEN) in H
      as (_ & Hp & _ & _ & _ & _ & Hf).
    destruct (raise_interrupt_frame status addr st) as (_ & Hp' & _ & _ & _ & _ & _ & Ht').
    rewrite Hp' in Hp. rewrite Ht' in Hf. rewrite Hp. auto.
  - intros H. apply push_done in H as [_ [(_ & Hp & Htr) | (Hnf & _ & _ & Hp & Htr)]].
    + rewrite Hp, Htr. split; [lia |]. intros Hf. apply Forall_app. split; [exact Hf |].
      repeat constructor; cbn; lia.
    + unfold INT_MAX in buflen_int. rewrite int32_small in Hp by lia.
      rewrite Hp, Htr. split; [lia |]. intros Hf. apply Forall_app. split; [exact Hf |].
      repeat constructor; cbn; lia.
Qed.

Lemma run_bounds acts :
  forall st st',
    0 <= currDMABuffPos st <= I2SDMABUFLEN ->
    run I2SDMABUFCNT I2SDMABUFLEN K desc_addr acts st = Done st' ->
    0 <= currDMABuffPos st' <= I2SDMABUFLEN /\
    (Forall (store_in_bounds I2SDMABUFLEN) (trace st) ->
     Forall (store_in_bounds I2SDMABUFLEN) (trace st')).
Proof.
  induction acts as [|a acts IH]; intros st st' Hpos; cbn [run].
  - intros [= <-]. auto.
  - destruct (step I2SDMABUFCNT I2SDMABUFLEN K desc_addr a st) as [st1| |] eqn:Hs;
      cbn [mbind outcome_bind]; try discriminate.
    intros Hrun. destruct (step_bounds _ _ _ Hpos Hs) as [Hpos1 Hf1].
    destruct (IH _ _ Hpos1 Hrun) as [Hpos' Hf']. auto.
Qed.

(** C9. In every run that starts with no current buffer and offset 0, the
    write offset stays within [0, I2SDMABUFLEN] and every store into a
    sample buffer is at an index below I2SDMABUFLEN.  (The statement is
    about every run, hence about every moment of a run.) *)

Theorem i2sPushSample_in_bounds (acts : list action) (st st' : state) :
  currDMABuff st = NULL ->
  currDMABuffPos st = 0 ->
  run I2SDMABUFCNT I2SDMABUFLEN K desc_addr acts st = Done st' ->
  0 <= currDMABuffPos st' <= I2SDMABUFLEN /\
  (Forall (store_in_bounds I2SDMABUFLEN) (trace st) ->
   Forall (store_in_bounds I2SDMABUFLEN) (trace st')).
Proof.
  intros _ Hpos. apply run_bounds. lia.
Qed.

End RunProofs.

(** C5, as the code has it.  From a producer without a buffer and at
    offset 0, with buffers of 128 frames and four of them, a run that
    contains exactly 130 pushes makes exactly two dequeues, the first for
    the initial buffer and the second when 128 frames are in it, and ends
    at write offset 2. *)

Theorem push_130_frames (K : i2s_consts) (desc_addr : Z -> Z)
    (acts : list action) (st st' : state) :
  currDMABuff st = NULL ->
  currDMABuffPos st = 0 ->
  run 4 128 K desc_addr acts st = Done st' ->
  pushes acts = 130%nat ->
  dequeues (trace st') = (dequeues (trace st) + 2)%nat /\ currDMABuffPos st' = 2.
Proof.
  intros Hb Hp Hrun Hn.
  assert (Hinv : producer_after 128 0 (dequeues (trace st)) st).
  { left. auto. }
  pose proof (run_counts 4 128 K desc_addr ltac:(lia) ltac:(unfold INT_MAX; lia)
                acts 0 _ st st' Hinv ltac:(lia) Hrun) as H.
  rewrite Hn in H. destruct H as [(H & _) | (_ & _ & Hpos & Hd)]; [lia |].
  change ((0 + Z.of_nat 130 - 1) mod 128 + 1) with 2 in Hpos.
  change ((0 + Z.of_nat 130 - 1) / 128) with 1 in Hd.
  split; [lia | exact Hpos].
Qed.

(** ** Loops in the outcome monad *)

Lemma for_loopM_inv (P : Z -> state -> Prop) body n :
  forall lo st st',
    (forall i s s', lo <= i < lo + Z.of_nat n -> P i s -> body i s = Done s' -> P (i + 1) s') ->
    P lo st ->
    for_loopM n lo body st = Done st' ->
    P (lo + Z.of_nat n) st'.
Proof.
  induction n as [|n IH]; intros lo st st' Hbody HP; cbn [for_loopM].
  - intros [= <-]. rewrite Z.add_0_r. exact HP.
  - destruct (body lo st) as [s1| |] eqn:Hb; cbn [mbind outcome_bind]; try discriminate.
    intros Hrun. replace (lo + Z.of_nat (S n)) with (lo + 1 + Z.of_nat n) by lia.
    eapply IH; [| | exact Hrun].
    + intros i s s' Hi. apply Hbody. lia.
    + eapply Hbody; [| exact HP | exact Hb]. lia.
Qed.

Lemma for_loopM_total (P : Z -> state -> Prop) body n :
  forall lo st,
    (forall i s, lo <= i < lo + Z.of_nat n -> P i s ->
                 exists s', body i s = Done s' /\ P (i + 1) s') ->
    P lo st ->
    exists st', for_loopM n lo body st = Done st' /\ P (lo + Z.of_nat n) st'.
Proof.
  induction n as [|n IH]; intros lo st Hbody HP; cbn [for_loopM].
  - exists st. rewrite Z.add_0_r. auto.
  - destruct (Hbody lo st ltac:(lia) HP) as (s1 & -> & HP1). cbn [mbind outcome_bind].
    replace (lo + Z.of_nat (S n)) with (lo + 1 + Z.of_nat n) by lia.
    apply IH; [| exact HP1]. intros i s Hi. apply Hbody. lia.
Qed.

(** A loop whose body keeps [Q] whether it returns or faults, never
    blocks, and cannot return at index [j], faults with [Q]. *)

Lemma for_loopM_fault (Q : state -> Prop) body j n :
  forall lo st,
    (forall i s, lo <= i -> Q s ->
       match body i s with Done s' | Fault s' => Q s' | Blocked => False end) ->
    (forall s s', body j s <> Done s') ->
    lo <= j < lo + Z.of_nat n ->
    Q st ->
    exists st', for_loopM n lo body st = Fault st' /\ Q st'.
Proof.
  induction n as [|n IH]; intros lo st Hbody Hj Hr HQ; [lia |].
  cbn [for_loopM]. pose proof (Hbody lo st ltac:(lia) HQ) as Hb.
  destruct (body lo st) as [s1| |s1] eqn:Eb; cbn [mbind outcome_bind].
  - destruct (Z.eq_dec lo j) as [-> | Hne]; [destruct (Hj _ _ Eb) |].
    apply IH; auto; [| lia]. intros i s Hi. apply Hbody. lia.
  - destruct Hb.
  - eauto.
Qed.

Lemma for_loopM_const body n st :
  forall lo,
    (forall i, lo <= i < lo + Z.of_nat n -> body i st = Done st) ->
    for_loopM n lo body st = Done st.
Proof.
  induction n as [|n IH]; intros lo Hbody; cbn [for_loopM]; [reflexivity |].
  rewrite Hbody by lia. cbn [mbind outcome_bind]. apply IH. intros i Hi. apply Hbody. lia.
Qed.

Lemma state_eta st :
  State (i2sBuf st) (i2sBufDesc st) (dmaQueue st) (underrunCnt st) (currDMABuff st)
        (currDMABuffPos st) (heap st) (regs st) (trace st) = st.
Proof. destruct st; reflexivity. Qed.

Section InitProofs.

Variable I2SDMABUFCNT : Z.
Variable I2SDMABUFLEN : Z.
Variable I2S_DEFAULT_SAMPLE_RATE : Z.
Variable K : i2s_consts.
Variable desc_addr : Z -> Z.

Hypothesis buflen_pos : 0 < I2SDMABUFLEN.

Lemma clear_byte_zero y x st b :
  i2sBuf st !! Z.to_nat y = Some (Ptr b) ->
  heap st !! b = Some (zeros I2SDMABUFLEN) ->
  0 <= x < I2SDMABUFLEN ->
  clear_byte y x st = Done st.
Proof.
  intros Hy Hb Hx. unfold clear_byte, store_byte. rewrite Hy, Hb.
  unfold zeros at 1. rewrite length_replicate.
  replace ((0 <=? x) && (x <? Z.of_nat (Z.to_nat (I2SDMABUFLEN * 4)))) with true
    by (symmetry; apply andb_true_intro; split; [apply Z.leb_le | apply Z.ltb_lt]; lia).
  change (0 mod 256) with 0.
  rewrite (list_insert_id (zeros I2SDMABUFLEN) (Z.to_nat x) 0)
    by (apply lookup_replicate_2; lia).
  rewrite (list_insert_id (heap st) b (zeros I2SDMABUFLEN) Hb).
  unfold set_heap. rewrite state_eta. reflexivity.
Qed.

Lemma alloc_buffer_ok alloc_ok y st :
  alloc_ok y = true -> 0 <= y -> (Z.to_nat y < length (i2sBuf st))%nat ->
  alloc_buffer I2SDMABUFLEN alloc_ok y st
  = Done (set_i2sBuf (<[Z.to_nat y := Ptr (length (heap st))]> (i2sBuf st))
            (set_heap (heap st ++ [zeros I2SDMABUFLEN]) st)).
Proof.
  intros Hok Hy Hlen. unfold alloc_buffer, calloc. rewrite Hok.
  unfold for_rangeM. apply for_loopM_const. intros x Hx.
  apply (clear_byte_zero _ _ _ (length (heap st))).
  - cbn [i2sBuf set_i2sBuf]. apply list_lookup_insert_eq. exact Hlen.
  - cbn [heap set_i2sBuf set_heap]. rewrite lookup_app_r by lia.
    rewrite Nat.sub_diag. reflexivity.
  - lia.
Qed.

Lemma alloc_buffer_fail alloc_ok y st :
  alloc_ok y = false \/ (length (i2sBuf st) <= Z.to_nat y)%nat ->
  exists st',
    alloc_buffer I2SDMABUFLEN alloc_ok y st = Fault st' /\ same_outside_pool st st'.
Proof.
  intros Hbad. unfold alloc_buffer, for_rangeM.
  destruct (Z.to_nat (I2SDMABUFLEN - 0)) as [|n] eqn:En; [lia |].
  destruct (calloc (alloc_ok y) I2SDMABUFLEN 4 (heap st)) as [p h] eqn:Ec.
  set (st1 := set_i2sBuf (<[Z.to_nat y := p]> (i2sBuf st)) (set_heap h st)).
  assert (Hc : clear_byte y 0 st1 = Fault st1).
  { unfold clear_byte.
    destruct (i2sBuf st1 !! Z.to_nat y) as [p'|] eqn:El; [| reflexivity].
    assert (p' = NULL) as ->; [| reflexivity].
    subst st1. cbn [i2sBuf set_i2sBuf] in El.
    destruct Hbad as [Hf | Hlen].
    - unfold calloc in Ec. rewrite Hf in Ec. injection Ec as <- <-.
      apply list_lookup_insert_Some in El. destruct El as [(_ & E & _) | (Hne & _)];
        [congruence | contradiction].
    - apply lookup_lt_Some in El. rewrite length_insert in El. lia. }
  cbn [for_loopM]. rewrite Hc. cbn [mbind outcome_bind].
  exists st1. split; [reflexivity |]. repeat split.
Qed.

Lemma alloc_buffer_cases alloc_ok y st :
  0 <= y ->
  (alloc_ok y = true /\ (Z.to_nat y < length (i2sBuf st))%nat /\
   alloc_buffer I2SDMABUFLEN alloc_ok y st
   = Done (set_i2sBuf (<[Z.to_nat y := Ptr (length (heap st))]> (i2sBuf st))
             (set_heap (heap st ++ [zeros I2SDMABUFLEN]) st))) \/
  ((alloc_ok y = false \/ (length (i2sBuf st) <= Z.to_nat y)%nat) /\
   exists st',
     alloc_buffer I2SDMABUFLEN alloc_ok y st = Fault st' /\ same_outside_pool st st').
Proof.
  intros Hy. destruct (alloc_ok y) eqn:Hok.
  - destruct (le_lt_dec (length (i2sBuf st)) (Z.to_nat y)) as [Hge | Hlt].
    + right. split; [auto |]. apply alloc_buffer_fail. auto.
    + left. split; [reflexivity |]. split; [exact Hlt |].
      apply alloc_buffer_ok; auto.
  - right. split; [auto |]. apply alloc_buffer_fail. auto.
Qed.

Lemma same_outside_pool_trans st0 st st' :
  same_outside_pool st0 st -> same_outside_pool st st' -> same_outside_pool st0 st'.
Proof.
  unfold same_outside_pool.
  intros (-> & -> & -> & -> & -> & -> & ->) (-> & -> & -> & -> & -> & -> & ->).
  repeat split.
Qed.

Lemma pool_at_next alloc_ok st0 y st st' :
  0 <= y -> pool_at I2SDMABUFLEN st0 y st ->
  alloc_buffer I2SDMABUFLEN alloc_ok y st = Done st' ->
  pool_at I2SDMABUFLEN st0 (y + 1) st' /\ alloc_ok y = true /\ (Z.to_nat y < length (i2sBuf st0))%nat.
Proof.
  intros Hy (Hout & Hheap & Hlen & Hbufs) Hdone.
  destruct (alloc_buffer_cases alloc_ok y st Hy)
    as [(Hok & Hlt & E) | (_ & st'' & E & _)]; rewrite E in Hdone; [| discriminate].
  injection Hdone as <-. split; [| split; [exact Hok | lia]].
  split; [exact Hout |]. cbn [heap i2sBuf set_i2sBuf set_heap].
  split; [| split].
  - rewrite Hheap, <- app_assoc. f_equal.
    replace (Z.to_nat (y + 1)) with (Z.to_nat y + 1)%nat by lia.
    rewrite replicate_add. reflexivity.
  - rewrite length_insert. exact Hlen.
  - intros j Hj. destruct (Z.eq_dec j y) as [-> | Hne].
    + rewrite list_lookup_insert_eq by exact Hlt.
      rewrite Hheap, length_app, length_replicate. reflexivity.
    + rewrite list_lookup_insert_ne by lia. apply Hbufs. lia.
Qed.

Lemma pool_at_start st0 : pool_at I2SDMABUFLEN st0 0 st0.
Proof.
  split; [repeat split |]. split; [cbn; rewrite app_nil_r; reflexivity |].
  split; [reflexivity |]. intros j Hj. lia.
Qed.

(** Allocation of the whole pool: if it returns, every request was
    granted, the arrays were long enough, and the pool is as [pool_at]
    says. *)

Lemma pool_done alloc_ok st0 st :
  0 <= I2SDMABUFCNT ->
  for_rangeM 0 I2SDMABUFCNT (alloc_buffer I2SDMABUFLEN alloc_ok) st0 = Done st ->
  pool_at I2SDMABUFLEN st0 I2SDMABUFCNT st /\
  (forall y, 0 <= y < I2SDMABUFCNT ->
     alloc_ok y = true /\ (Z.to_nat y < length (i2sBuf st0))%nat).
Proof.
  intros HN Hrun. unfold for_rangeM in Hrun.
  pose proof (for_loopM_inv
    (fun y s => pool_at I2SDMABUFLEN st0 y s /\
       forall j, 0 <= j < y -> alloc_ok j = true /\ (Z.to_nat j < length (i2sBuf st0))%nat)
    (alloc_buffer I2SDMABUFLEN alloc_ok) (Z.to_nat (I2SDMABUFCNT - 0)) 0 st0 st) as H.
  replace (0 + Z.of_nat (Z.to_nat (I2SDMABUFCNT - 0))) with I2SDMABUFCNT in H by lia.
  apply H; [| split; [apply pool_at_start | intros j Hj; lia] | exact Hrun].
  intros y s s' Hy [Hp Hall] Hb.
  destruct (pool_at_next alloc_ok st0 y s s' ltac:(lia) Hp Hb) as (Hp' & Hok & Hlt).
  split; [exact Hp' |]. intros j Hj.
  destruct (Z.eq_dec j y) as [-> | Hne]; [auto | apply Hall; lia].
Qed.

Lemma pool_fault alloc_ok st0 y :
  0 <= y < I2SDMABUFCNT -> alloc_ok y = false ->
  exists st,
    for_rangeM 0 I2SDMABUFCNT (alloc_buffer I2SDMABUFLEN alloc_ok) st0 = Fault st /\
    same_outside_pool st0 st.
Proof.
  intros Hy Hbad. unfold for_rangeM.
  apply (for_loopM_fault (same_outside_pool st0) _ y).
  - intros i s Hi HQ.
    destruct (alloc_buffer_cases alloc_ok i s Hi)
      as [(_ & _ & ->) | (_ & st'' & -> & Hs)].
    + exact HQ.
    + eapply same_outside_pool_trans; eassumption.
  - intros s s' E.
    destruct (alloc_buffer_cases alloc_ok y s ltac:(lia))
      as [(Hok & _) | (_ & st'' & E' & _)]; congruence.
  - lia.
  - repeat split.
Qed.

End InitProofs.

(** ** Register fields *)

Lemma land_uint32 x m : 0 <= m < 2 ^ 32 -> Z.land (uint32 x) m = Z.land x m.
Proof.
  intros Hm. unfold uint32. apply Z.bits_inj'. intros n Hn.
  rewrite !Z.land_spec. destruct (Z_lt_le_dec n 32) as [Hlt | Hge].
  - rewrite Z.mod_pow2_bits_low by lia. reflexivity.
  - assert (Z.testbit m n = false) as ->.
    { destruct (Z.eq_dec m 0) as [-> | Hne]; [apply Z.bits_0 |].
      apply Z.bits_above_log2; [lia |].
      apply Z.lt_le_trans with 32; [| exact Hge].
      apply Z.log2_lt_pow2; lia. }
    rewrite !andb_false_r. reflexivity.
Qed.

Lemma land_clear_set r a m :
  0 <= m < 2 ^ 32 ->
  Z.land (uint32 (Z.lor (uint32 (Z.land r (Z.lnot m))) (Z.land a m))) m = Z.land a m.
Proof.
  intros Hm. rewrite land_uint32 by exact Hm.
  rewrite Z.land_lor_distr_l, land_uint32 by exact Hm.
  rewrite <- !Z.land_assoc, Z.land_diag.
  rewrite (Z.land_comm (Z.lnot m) m), Z.land_lnot_diag, Z.land_0_r.
  apply Z.lor_0_l.
Qed.

Lemma land_set_other r s m :
  0 <= m < 2 ^ 32 -> Z.land s m = 0 ->
  Z.land (uint32 (Z.lor r s)) m = Z.land r m.
Proof.
  intros Hm Hs. rewrite land_uint32 by exact Hm.
  rewrite Z.land_lor_distr_l, Hs. apply Z.lor_0_r.
Qed.

Section InitDone.

Variable I2SDMABUFCNT : Z.
Variable I2SDMABUFLEN : Z.
Variable I2S_DEFAULT_SAMPLE_RATE : Z.
Variable K : i2s_consts.
Variable desc_addr : Z -> Z.

(** [i2sInit] returns exactly when both of its loops do; what the
    straight-line code around them changes is the registers, the queue
    handle and the log. *)

Lemma i2sInit_done alloc_ok queue_ok st st' :
  i2sInit I2SDMABUFCNT I2SDMABUFLEN I2S_DEFAULT_SAMPLE_RATE K desc_addr
          alloc_ok queue_ok st = Done st' ->
  exists st1 st1' st2,
    for_rangeM 0 I2SDMABUFCNT (alloc_buffer I2SDMABUFLEN alloc_ok)
               (set_underrunCnt 0 st) = Done st1 /\
    for_rangeM 0 I2SDMABUFCNT (init_desc I2SDMABUFCNT I2SDMABUFLEN desc_addr) st1'
    = Done st2 /\
    (i2sBuf st1' = i2sBuf st1 /\ i2sBufDesc st1' = i2sBufDesc st1 /\
     heap st1' = heap st1 /\ underrunCnt st1' = underrunCnt st1 /\
     currDMABuff st1' = currDMABuff st1 /\ currDMABuffPos st1' = currDMABuffPos st1) /\
    (i2sBuf st' = i2sBuf st2 /\ i2sBufDesc st' = i2sBufDesc st2 /\
     heap st' = heap st2 /\ underrunCnt st' = underrunCnt st2 /\
     currDMABuff st' = currDMABuff st2 /\ currDMABuffPos st' = currDMABuffPos st2 /\
     dmaQueue st' = (if queue_ok then Some (xQueueCreate (I2SDMABUFCNT - 1)) else None) /\
     regs st' I2S_OUT_LINK_REG
     = uint32 (Z.lor (uint32 (Z.lor (uint32 (Z.land (regs st2 I2S_OUT_LINK_REG)
                                                    (Z.lnot (I2S_OUTLINK_ADDR K))))
                                    (Z.land (desc_addr 0) (I2S_OUTLINK_ADDR K))))
                     (I2S_OUTLINK_START K)) /\
     regs st' I2S_IN_LINK_REG
     = uint32 (Z.lor (uint32 (Z.land (regs st2 I2S_IN_LINK_REG)
                                     (Z.lnot (I2S_INLINK_ADDR K))))
                     (Z.land (desc_addr 1) (I2S_INLINK_ADDR K)))).
Proof.
  unfold i2sInit. intros H.
  destruct (for_rangeM 0 I2SDMABUFCNT (alloc_buffer I2SDMABUFLEN alloc_ok)
                       (set_underrunCnt 0 st)) as [st1| |] eqn:H1;
    cbn [mbind outcome_bind] in H; try discriminate.
  match type of H with
  | context [for_rangeM ?a ?b ?c ?d] =>
      destruct (for_rangeM a b c d) as [st2| |] eqn:H2
  end; cbn [mbind outcome_bind] in H; try discriminate.
  injection H as <-.
  eexists st1, _, st2. split; [reflexivity |]. split; [exact H2 |].
  split; [repeat split |]. repeat split.
Qed.

End InitDone.

(** ** The descriptor ring *)

Section RingProofs.

Variable I2SDMABUFCNT : Z.
Variable I2SDMABUFLEN : Z.
Variable I2S_DEFAULT_SAMPLE_RATE : Z.
Variable K : i2s_consts.
Variable desc_addr : Z -> Z.

Lemma init_desc_eq x st :
  init_desc I2SDMABUFCNT I2SDMABUFLEN desc_addr x st
  = match i2sBuf st !! Z.to_nat x with
    | None => Fault st
    | Some p => Done (set_i2sBufDesc (<[Z.to_nat x := ring_desc I2SDMABUFCNT I2SDMABUFLEN desc_addr x p]> (i2sBufDesc st)) st)
    end.
Proof. reflexivity. Qed.

Lemma ring_at_next st0 x st st' :
  0 <= x -> (Z.to_nat x < length (i2sBufDesc st0))%nat ->
  ring_at I2SDMABUFCNT I2SDMABUFLEN desc_addr st0 x st ->
  init_desc I2SDMABUFCNT I2SDMABUFLEN desc_addr x st = Done st' ->
  ring_at I2SDMABUFCNT I2SDMABUFLEN desc_addr st0 (x + 1) st'.
Proof.
  intros Hx Hlt (Hb & Hh & Hq & Hu & Hc & Hp & Hr & Ht & Hlen & Hd).
  rewrite init_desc_eq. rewrite Hb.
  destruct (i2sBuf st0 !! Z.to_nat x) as [p|] eqn:Hl; [| discriminate].
  intros [= <-]. unfold ring_at.
  cbn [set_i2sBufDesc i2sBuf heap dmaQueue underrunCnt currDMABuff currDMABuffPos
       regs trace i2sBufDesc].
  rewrite length_insert.
  repeat (split; [assumption |]).
  intros i Hi. destruct (Z.eq_dec i x) as [-> | Hne].
  - exists p. split; [exact Hl |]. apply list_lookup_insert_eq. lia.
  - destruct (Hd i ltac:(lia)) as (q & Hq1 & Hq2). exists q. split; [exact Hq1 |].
    rewrite list_lookup_insert_ne by lia. exact Hq2.
Qed.

Lemma ring_done st0 st :
  0 <= I2SDMABUFCNT ->
  Z.of_nat (length (i2sBufDesc st0)) = I2SDMABUFCNT ->
  for_rangeM 0 I2SDMABUFCNT (init_desc I2SDMABUFCNT I2SDMABUFLEN desc_addr) st0 = Done st ->
  ring_at I2SDMABUFCNT I2SDMABUFLEN desc_addr st0 I2SDMABUFCNT st.
Proof.
  intros HN Hlen Hrun. unfold for_rangeM in Hrun.
  pose proof (for_loopM_inv (ring_at I2SDMABUFCNT I2SDMABUFLEN desc_addr st0)
    (init_desc I2SDMABUFCNT I2SDMABUFLEN desc_addr)
    (Z.to_nat (I2SDMABUFCNT - 0)) 0 st0 st) as H.
  replace (0 + Z.of_nat (Z.to_nat (I2SDMABUFCNT - 0))) with I2SDMABUFCNT in H by lia.
  apply H; [| | exact Hrun].
  - intros x s s' Hx Hr Hb. eapply ring_at_next; [| | exact Hr | exact Hb]; lia.
  - unfold ring_at. repeat (split; [reflexivity |]). intros i Hi. lia.
Qed.

Hypothesis desc_addr_inj :
  forall i j, 0 <= i < I2SDMABUFCNT -> 0 <= j < I2SDMABUFCNT ->
              desc_addr i = desc_addr j -> i = j.

Lemma desc_index_addr j :
  0 <= j < I2SDMABUFCNT -> desc_index I2SDMABUFCNT desc_addr (desc_addr j) = Some j.
Proof.
  intros Hj. unfold desc_index.
  destruct (find (fun x => desc_addr x =? desc_addr j) (seqZ 0 I2SDMABUFCNT)) as [x|] eqn:Hf.
  - apply find_some in Hf as [Hin Heq]. apply list_elem_of_In, elem_of_seqZ in Hin.
    f_equal. apply desc_addr_inj; lia.
  - assert (Hn : (desc_addr j =? desc_addr j) = false).
    { apply (find_none _ _ Hf j). apply list_elem_of_In, elem_of_seqZ. lia. }
    lia.
Qed.

Lemma next_mod i :
  0 <= i < I2SDMABUFCNT ->
  (if i <? I2SDMABUFCNT - 1 then desc_addr (i + 1) else desc_addr 0)
  = desc_addr ((i + 1) mod I2SDMABUFCNT).
Proof.
  intros Hi. destruct (Z.ltb_spec i (I2SDMABUFCNT - 1)).
  - rewrite Z.mod_small by lia. reflexivity.
  - replace (i + 1) with I2SDMABUFCNT by lia. rewrite Z.mod_same by lia. reflexivity.
Qed.

Lemma dma_walk_ring st k :
  (forall i, 0 <= i < I2SDMABUFCNT ->
     exists d, i2sBufDesc st !! Z.to_nat i = Some d /\
               Lldesc.empty d = desc_addr ((i + 1) mod I2SDMABUFCNT)) ->
  forall j, 0 <= j < I2SDMABUFCNT ->
    dma_walk I2SDMABUFCNT desc_addr k (desc_addr j) st
    = Some (desc_addr ((j + Z.of_nat k) mod I2SDMABUFCNT)).
Proof.
  intros Hd. induction k as [|k IH]; intros j Hj; cbn [dma_walk].
  - rewrite Z.add_0_r, Z.mod_small by lia. reflexivity.
  - unfold dma_next, desc_at. rewrite desc_index_addr by exact Hj.
    cbn [mbind option_bind]. destruct (Hd j Hj) as (d & -> & He).
    cbn [fmap option_fmap option_map mbind option_bind]. rewrite He.
    rewrite IH by (apply Z.mod_pos_bound; lia).
    rewrite Zplus_mod_idemp_l. do 2 f_equal. f_equal. lia.
Qed.

End RingProofs.

(** ** The claims about [i2s_isr] and [i2sInit] *)

Section IsrClaims.

Variable I2SDMABUFCNT : Z.
Variable K : i2s_consts.
Variable desc_addr : Z -> Z.

Lemma i2s_isr_clears rx tx st st' :
  regs st I2S_INT_ST_REG <> 0 ->
  i2s_isr I2SDMABUFCNT K desc_addr rx tx st = Done st' ->
  regs st' = reg_write I2S_INT_CLR_REG 0xffffffff (regs st).
Proof.
  intros H0. unfold i2s_isr, READ_PERI_REG.
  apply Z.eqb_neq in H0. rewrite H0.
  destruct (Z.land (regs st I2S_INT_ST_REG) (I2S_OUT_EOF_INT_ST K) =? 0).
  { cbn [mbind outcome_bind]. intros [= <-]. reflexivity. }
  cbn [WRITE_PERI_REG set_regs dmaQueue].
  destruct (dmaQueue st) as [q|]; [| discriminate].
  destruct (xQueueIsQueueFullFromISR q).
  - destruct (xQueueReceiveFromISR q) as [q1 dummy].
    match goal with |- context [desc_at ?n ?f ?a ?s] => destruct (desc_at n f a s) end;
      [| discriminate].
    destruct (xQueueSendFromISR q1 _) as [q2 sent].
    cbn [mbind outcome_bind].
    destruct (false || rx && bool_decide (is_Some dummy) || tx && sent);
      intros [= <-]; reflexivity.
  - match goal with |- context [desc_at ?n ?f ?a ?s] => destruct (desc_at n f a s) end;
      [| discriminate].
    destruct (xQueueSendFromISR q _) as [q2 sent].
    cbn [mbind outcome_bind].
    destruct (false || tx && sent); intros [= <-]; reflexivity.
Qed.

(** C2. When the handler processes a completion and the queue, of capacity
    I2SDMABUFCNT-1, is full, it returns without waiting after exactly one
    increment of the underrun counter, one removal of the oldest token,
    which is dropped, and then one enqueue of the finished buffer's token;
    when the queue is not full the counter is unchanged and the enqueue is
    the only queue operation. *)

Theorem i2s_isr_underrun (rx_woken tx_woken : bool) (st : state) (q : queue) (d : lldesc_t) :
  2 <= I2SDMABUFCNT ->
  dmaQueue st = Some q ->
  uxLength q = I2SDMABUFCNT - 1 ->
  Z.land (regs st I2S_INT_ST_REG) (I2S_OUT_EOF_INT_ST K) <> 0 ->
  desc_at I2SDMABUFCNT desc_addr (regs st I2S_OUT_EOF_DES_ADDR_REG) st = Some d ->
  0 <= underrunCnt st < INT_MAX ->
  (uxMessagesWaiting q = uxLength q ->
   exists oldest rest st',
     items q = oldest :: rest /\
     i2s_isr I2SDMABUFCNT K desc_addr rx_woken tx_woken st = Done st' /\
     underrunCnt st' = underrunCnt st + 1 /\
     dmaQueue st' = Some (Queue (uxLength q) (rest ++ [Lldesc.buf d])) /\
     trace st' = trace st
                 ++ [EvQueueReceiveFromISR (Some oldest);
                     EvQueueSendFromISR (Lldesc.buf d) true]
                 ++ (if rx_woken || tx_woken then [EvCall portYIELD_FROM_ISR] else [])) /\
  (uxMessagesWaiting q < uxLength q ->
   exists st',
     i2s_isr I2SDMABUFCNT K desc_addr rx_woken tx_woken st = Done st' /\
     underrunCnt st' = underrunCnt st /\
     dmaQueue st' = Some (Queue (uxLength q) (items q ++ [Lldesc.buf d])) /\
     trace st' = trace st
                 ++ [EvQueueSendFromISR (Lldesc.buf d) true]
                 ++ (if tx_woken then [EvCall portYIELD_FROM_ISR] else [])).
Proof.
  intros HN Hq Hcap Hst Hd Hcnt. split.
  - intros Hfull.
    destruct (items q) as [|oldest rest] eqn:Hitems.
    { unfold uxMessagesWaiting in Hfull. rewrite Hitems in Hfull. cbn in Hfull. lia. }
    exists oldest, rest. eexists. split; [reflexivity |].
    split; [eapply i2s_isr_full; eassumption |].
    cbn [underrunCnt dmaQueue trace]. unfold INT_MAX in Hcnt.
    rewrite int32_small by lia. auto.
  - intros Hroom. eexists.
    split; [eapply i2s_isr_room; eassumption |].
    cbn [underrunCnt dmaQueue trace]. auto.
Qed.

(** C10. If the interrupt status register reads zero, the handler returns
    at once and changes nothing: not the queue, not the underrun counter,
    not the interrupt-clear register.  The clear-all write happens exactly
    when some status bit is set. *)

Theorem i2s_isr_no_status (rx_woken tx_woken : bool) (st : state) :
  (regs st I2S_INT_ST_REG = 0 ->
   i2s_isr I2SDMABUFCNT K desc_addr rx_woken tx_woken st = Done st) /\
  (regs st I2S_INT_ST_REG <> 0 ->
   forall st',
     i2s_isr I2SDMABUFCNT K desc_addr rx_woken tx_woken st = Done st' ->
     regs st' I2S_INT_CLR_REG = 0xffffffff).
Proof.
  split.
  - apply i2s_isr_idle.
  - intros H0 st' H. rewrite (i2s_isr_clears _ _ _ _ H0 H). reflexivity.
Qed.

End IsrClaims.

Section InitClaims.

Variable I2SDMABUFCNT : Z.
Variable I2SDMABUFLEN : Z.
Variable I2S_DEFAULT_SAMPLE_RATE : Z.
Variable K : i2s_consts.
Variable desc_addr : Z -> Z.

Hypothesis buflen_pos : 0 < I2SDMABUFLEN.

(** C7. If the allocation of any one of the I2SDMABUFCNT buffers fails,
    [i2sInit] does not return: it stops while it clears the buffer it did
    not get, before any descriptor is written, before the queue is created,
    before any register is touched and before any call into the SDK. *)

Theorem i2sInit_alloc_failure (alloc_ok : Z -> bool) (queue_ok : bool) (st : state) (y : Z) :
  0 <= y < I2SDMABUFCNT ->
  alloc_ok y = false ->
  exists st',
    i2sInit I2SDMABUFCNT I2SDMABUFLEN I2S_DEFAULT_SAMPLE_RATE K desc_addr
            alloc_ok queue_ok st = Fault st' /\
    i2sBufDesc st' = i2sBufDesc st /\ dmaQueue st' = dmaQueue st /\
    regs st' = regs st /\ trace st' = trace st.
Proof.
  intros Hy Hbad.
  destruct (pool_fault I2SDMABUFCNT I2SDMABUFLEN buflen_pos alloc_ok
              (set_underrunCnt 0 st) y Hy Hbad) as (st' & Hrun & Hsame).
  exists st'. unfold i2sInit. rewrite Hrun. split; [reflexivity |].
  destruct Hsame as (Hd & Hq & _ & _ & Hr & Ht & _). auto.
Qed.

Lemma ring_frame st0 st :
  for_rangeM 0 I2SDMABUFCNT (init_desc I2SDMABUFCNT I2SDMABUFLEN desc_addr) st0 = Done st ->
  i2sBuf st = i2sBuf st0 /\ heap st = heap st0 /\ regs st = regs st0.
Proof.
  unfold for_rangeM. intros Hrun.
  refine (for_loopM_inv
            (fun _ s => i2sBuf s = i2sBuf st0 /\ heap s = heap st0 /\ regs s = regs st0)
            _ _ _ _ _ _ _ Hrun); [| auto].
  intros i s s' _ (Hb & Hh & Hr). rewrite init_desc_eq.
  destruct (i2sBuf s !! Z.to_nat i); [| discriminate].
  intros [= <-]. auto.
Qed.

Lemma i2sInit_pool alloc_ok queue_ok st st' :
  0 <= I2SDMABUFCNT ->
  i2sInit I2SDMABUFCNT I2SDMABUFLEN I2S_DEFAULT_SAMPLE_RATE K desc_addr
          alloc_ok queue_ok st = Done st' ->
  heap st' = heap st ++ replicate (Z.to_nat I2SDMABUFCNT) (zeros I2SDMABUFLEN) /\
  length (i2sBuf st') = length (i2sBuf st) /\
  (forall j, 0 <= j < I2SDMABUFCNT ->
     i2sBuf st' !! Z.to_nat j = Some (Ptr (length (heap st) + Z.to_nat j))) /\
  (forall y, 0 <= y < I2SDMABUFCNT -> alloc_ok y = true).
Proof.
  intros HN Hinit.
  destruct (i2sInit_done _ _ _ _ _ _ _ _ _ Hinit)
    as (st1 & st1' & st2 & H1 & H2 & (Eb1 & _ & Eh1 & _) & (Eb & _ & Eh & _)).
  destruct (pool_done _ _ buflen_pos _ _ _ HN H1) as ((_ & Hheap & Hlen & Hbufs) & Hok).
  destruct (ring_frame _ _ H2) as (Eb2 & Eh2 & _).
  rewrite Eb, Eb2, Eb1, Eh, Eh2, Eh1.
  split; [exact Hheap |]. split; [exact Hlen |]. split; [exact Hbufs |].
  intros y Hy. apply Hok, Hy.
Qed.

Lemma lookup_pool (h : list (list Z)) n j :
  (j < n)%nat ->
  (h ++ replicate n (zeros I2SDMABUFLEN)) !! (length h + j)%nat = Some (zeros I2SDMABUFLEN).
Proof.
  intros Hj. rewrite lookup_app_r by lia.
  replace (length h + j - length h)%nat with j by lia.
  apply lookup_replicate_2. exact Hj.
Qed.

(** C8. When [i2sInit] has returned, each of the I2SDMABUFCNT sample
    buffers is a block of I2SDMABUFLEN*4 bytes and every one of its bytes
    is zero. *)

Theorem i2sInit_buffers_zero (alloc_ok : Z -> bool) (queue_ok : bool) (st st' : state) :
  i2sInit I2SDMABUFCNT I2SDMABUFLEN I2S_DEFAULT_SAMPLE_RATE K desc_addr
          alloc_ok queue_ok st = Done st' ->
  forall y, 0 <= y < I2SDMABUFCNT ->
    exists b bytes,
      i2sBuf st' !! Z.to_nat y = Some (Ptr b) /\
      heap st' !! b = Some bytes /\
      Z.of_nat (length bytes) = I2SDMABUFLEN * 4 /\
      Forall (fun byte => byte = 0) bytes.
Proof.
  intros Hinit y Hy.
  assert (HN : 0 <= I2SDMABUFCNT) by lia.
  destruct (i2sInit_pool _ _ _ _ HN Hinit) as (Hheap & _ & Hbufs & _).
  exists (length (heap st) + Z.to_nat y)%nat, (zeros I2SDMABUFLEN).
  split; [apply Hbufs, Hy |]. split; [| split].
  - rewrite Hheap. apply lookup_pool. lia.
  - unfold zeros. rewrite length_replicate. lia.
  - unfold zeros. apply Forall_replicate. reflexivity.
Qed.

Hypothesis bufcnt_two : 2 <= I2SDMABUFCNT.
Hypothesis buflen_field : I2SDMABUFLEN * 4 < 2 ^ 12.
Hypothesis desc_addr_inj :
  forall i j, 0 <= i < I2SDMABUFCNT -> 0 <= j < I2SDMABUFCNT ->
              desc_addr i = desc_addr j -> i = j.
Hypothesis outlink_addr_range : 0 <= I2S_OUTLINK_ADDR K < 2 ^ 32.
Hypothesis inlink_addr_range : 0 <= I2S_INLINK_ADDR K < 2 ^ 32.
Hypothesis outlink_start_apart : Z.land (I2S_OUTLINK_START K) (I2S_OUTLINK_ADDR K) = 0.

(** The descriptors after [i2sInit]. *)

Lemma i2sInit_ring alloc_ok queue_ok st st' :
  arrays_ok I2SDMABUFCNT st ->
  i2sInit I2SDMABUFCNT I2SDMABUFLEN I2S_DEFAULT_SAMPLE_RATE K desc_addr
          alloc_ok queue_ok st = Done st' ->
  forall i, 0 <= i < I2SDMABUFCNT ->
    i2sBufDesc st' !! Z.to_nat i
    = Some (ring_desc I2SDMABUFCNT I2SDMABUFLEN desc_addr i
              (Ptr (length (heap st) + Z.to_nat i))).
Proof.
  intros [_ Hlen] Hinit i Hi.
  assert (HN : 0 <= I2SDMABUFCNT) by lia.
  destruct (i2sInit_pool _ _ _ _ HN Hinit) as (_ & _ & Hbufs & _).
  destruct (i2sInit_done _ _ _ _ _ _ _ _ _ Hinit)
    as (st1 & st1' & st2 & H1 & H2 & (Eb1 & Ed1 & _) & (Eb & Ed & _)).
  destruct (pool_done _ _ buflen_pos _ _ _ HN H1) as (((Hd & _) & _) & _).
  cbn [i2sBufDesc set_underrunCnt] in Hd.
  assert (Hlen1 : Z.of_nat (length (i2sBufDesc st1')) = I2SDMABUFCNT)
    by (rewrite Ed1, Hd; exact Hlen).
  pose proof (ring_done _ _ _ _ _ HN Hlen1 H2)
    as (Eb2 & _ & _ & _ & _ & _ & _ & _ & _ & Hring).
  destruct (Hring i Hi) as (p & Hp & Hdesc).
  rewrite Ed, Hdesc. rewrite <- Eb2, <- Eb, (Hbufs i Hi) in Hp.
  injection Hp as <-. reflexivity.
Qed.

(** C4. After [i2sInit], descriptor [i] has its owner and end-of-frame
    flags set, length and capacity I2SDMABUFLEN*4 bytes, points to sample
    buffer [i], and links to descriptor [(i+1) mod I2SDMABUFCNT]; following
    the links from descriptor 0 visits the descriptors in order and is back
    at descriptor 0 after I2SDMABUFCNT steps; the address field of the
    output link register holds the address of descriptor 0 and that of the
    input link register the address of descriptor 1. *)

Theorem i2sInit_descriptor_ring (alloc_ok : Z -> bool) (queue_ok : bool) (st st' : state) :
  arrays_ok I2SDMABUFCNT st ->
  i2sInit I2SDMABUFCNT I2SDMABUFLEN I2S_DEFAULT_SAMPLE_RATE K desc_addr
          alloc_ok queue_ok st = Done st' ->
  (forall i, 0 <= i < I2SDMABUFCNT ->
     exists d,
       i2sBufDesc st' !! Z.to_nat i = Some d /\
       Lldesc.owner d = 1 /\ Lldesc.eof d = 1 /\
       Lldesc.length d = I2SDMABUFLEN * 4 /\ Lldesc.size d = I2SDMABUFLEN * 4 /\
       i2sBuf st' !! Z.to_nat i = Some (Lldesc.buf d) /\
       buffer_len (Lldesc.buf d) (heap st') = Some (I2SDMABUFLEN * 4) /\
       Lldesc.empty d = desc_addr ((i + 1) mod I2SDMABUFCNT)) /\
  (forall k,
     dma_walk I2SDMABUFCNT desc_addr k (desc_addr 0) st'
     = Some (desc_addr (Z.of_nat k mod I2SDMABUFCNT))) /\
  Z.land (regs st' I2S_OUT_LINK_REG) (I2S_OUTLINK_ADDR K)
  = Z.land (desc_addr 0) (I2S_OUTLINK_ADDR K) /\
  Z.land (regs st' I2S_IN_LINK_REG) (I2S_INLINK_ADDR K)
  = Z.land (desc_addr 1) (I2S_INLINK_ADDR K).
Proof.
  intros Harr Hinit.
  pose proof (i2sInit_ring _ _ _ _ Harr Hinit) as Hring.
  assert (HN : 0 <= I2SDMABUFCNT) by lia.
  destruct (i2sInit_pool _ _ _ _ HN Hinit) as (Hheap & _ & Hbufs & _).
  assert (Hdesc : forall i, 0 <= i < I2SDMABUFCNT ->
    exists d,
      i2sBufDesc st' !! Z.to_nat i = Some d /\
      Lldesc.owner d = 1 /\ Lldesc.eof d = 1 /\
      Lldesc.length d = I2SDMABUFLEN * 4 /\ Lldesc.size d = I2SDMABUFLEN * 4 /\
      i2sBuf st' !! Z.to_nat i = Some (Lldesc.buf d) /\
      buffer_len (Lldesc.buf d) (heap st') = Some (I2SDMABUFLEN * 4) /\
      Lldesc.empty d = desc_addr ((i + 1) mod I2SDMABUFCNT)).
  { intros i Hi. eexists. split; [apply Hring, Hi |].
    cbn [ring_desc Lldesc.owner Lldesc.eof Lldesc.length Lldesc.size Lldesc.buf
         Lldesc.empty].
    assert (Hf : bitfield 12 (int32 (I2SDMABUFLEN * 4)) = I2SDMABUFLEN * 4).
    { unfold bitfield. rewrite int32_small by lia. apply Z.mod_small. lia. }
    rewrite Hf. repeat (split; [reflexivity |]).
    split; [apply Hbufs, Hi |]. split.
    - cbn [buffer_len]. rewrite Hheap, lookup_pool by lia. cbn.
      unfold zeros. rewrite length_replicate. f_equal. lia.
    - apply next_mod. lia. }
  split; [exact Hdesc |]. split; [| split].
  - intros k.
    rewrite (dma_walk_ring I2SDMABUFCNT desc_addr desc_addr_inj st' k); [reflexivity | | lia].
    intros i Hi. destruct (Hdesc i Hi) as (d & Hd & _ & _ & _ & _ & _ & _ & He). eauto.
  - destruct (i2sInit_done _ _ _ _ _ _ _ _ _ Hinit)
      as (st1 & st1' & st2 & _ & _ & _ & (_ & _ & _ & _ & _ & _ & _ & Hout & _)).
    rewrite Hout, land_set_other by assumption.
    apply land_clear_set. assumption.
  - destruct (i2sInit_done _ _ _ _ _ _ _ _ _ Hinit)
      as (st1 & st1' & st2 & _ & _ & _ & (_ & _ & _ & _ & _ & _ & _ & _ & Hin)).
    rewrite Hin. apply land_clear_set. assumption.
Qed.

End InitClaims.

(** * Further properties of the driver *)

(** ** The divider search on any rate *)

Lemma find_divider_in_space (rate fuzz : Z) :
  in_space fuzz (chosen (find_divider rate fuzz)).
Proof.
  pose proof (fold_improve (code_error rate) (best_error rate) best_of
                (best_error_best_of rate) (candidates (bits_limit fuzz))
                best_init) as Hf.
  rewrite <- (fold_left_ext _ _ _ (try_triple_improve rate)) in Hf.
  rewrite <- find_divider_fold in Hf.
  destruct Hf as [[-> _] | (l1 & a & l2 & El & -> & _)].
  - unfold in_space. cbn [chosen best_init bestbckdiv bestclkmdiv bestbits
                           t_bck t_clkm t_bits].
    destruct (bits_limit_cases fuzz) as [-> | ->]; lia.
  - change (chosen (best_of a)) with (Triple (t_bck a) (t_clkm a) (t_bits a)).
    rewrite triple_eta. apply in_space_candidates. rewrite El. apply in_elt.
Qed.

Lemma find_divider_16_bits (rate : Z) : bestbits (find_divider rate 0) = 16.
Proof.
  destruct (find_divider_in_space rate 0) as (_ & _ & Hbits).
  cbn [chosen t_bits] in Hbits. change (bits_limit 0) with 17 in Hbits. lia.
Qed.

(** X1. Whatever rate is requested, positive or not, and whatever the
    flag, the triple [i2sSetRate] programs lies in the search space; in
    particular the word length is 16 when fuzzing is off. *)

Theorem i2sSetRate_always_in_space (rate enaWordlenFuzzing : Z) :
  in_space enaWordlenFuzzing (chosen (find_divider rate enaWordlenFuzzing)) /\
  (enaWordlenFuzzing = 0 -> bestbits (find_divider rate enaWordlenFuzzing) = 16).
Proof.
  split; [apply find_divider_in_space |]. intros ->. apply find_divider_16_bits.
Qed.

(** ** Steps of a run *)

Section StepProofs.

Variable I2SDMABUFCNT : Z.
Variable I2SDMABUFLEN : Z.
Variable K : i2s_consts.
Variable desc_addr : Z -> Z.

(** What the handler does to the queue and to the underrun counter. *)

Lemma i2s_isr_queue rx tx st st' :
  i2s_isr I2SDMABUFCNT K desc_addr rx tx st = Done st' ->
  (underrunCnt st' = underrunCnt st \/ underrunCnt st' = int32 (underrunCnt st + 1)) /\
  match dmaQueue st, dmaQueue st' with
  | Some q, Some q' =>
      uxLength q' = uxLength q /\
      (0 <= uxMessagesWaiting q <= uxLength q ->
       0 <= uxMessagesWaiting q' <= uxLength q') /\
      (forall tok, In tok (items q') ->
         In tok (items q) \/
         exists d, desc_at I2SDMABUFCNT desc_addr (regs st I2S_OUT_EOF_DES_ADDR_REG) st
                   = Some d /\ tok = Lldesc.buf d)
  | None, None => True
  | _, _ => False
  end.
Proof.
  unfold i2s_isr, READ_PERI_REG.
  destruct (regs st I2S_INT_ST_REG =? 0).
  { intros [= <-]. split; [auto |]. destruct (dmaQueue st); auto. }
  destruct (Z.land (regs st I2S_INT_ST_REG) (I2S_OUT_EOF_INT_ST K) =? 0).
  { cbn [mbind outcome_bind]. intros [= <-]. proj_simpl.
    split; [auto |]. destruct (dmaQueue st); auto. }
  cbn [WRITE_PERI_REG set_regs dmaQueue regs].
  replace (reg_write I2S_INT_CLR_REG 4294967295 (regs st) I2S_OUT_EOF_DES_ADDR_REG)
    with (regs st I2S_OUT_EOF_DES_ADDR_REG) by reflexivity.
  destruct (dmaQueue st) as [q|]; [| discriminate].
  unfold xQueueIsQueueFullFromISR, xQueueReceiveFromISR, xQueueSendFromISR, uxMessagesWaiting.
  destruct (Z.of_nat (length (items q)) =? uxLength q) eqn:Hfull.
  - destruct (items q) as [|oldest rest] eqn:Hitems.
    + rewrite (desc_at_frame _ _ _ st) by reflexivity.
      destruct (desc_at I2SDMABUFCNT desc_addr (regs st I2S_OUT_EOF_DES_ADDR_REG) st)
        as [d|] eqn:Hd; [| discriminate].
      rewrite Hitems. cbn [length] in *.
      destruct (Z.of_nat 0 <? uxLength q) eqn:Hroom; cbn [mbind outcome_bind];
        match goal with |- context [if ?b then _ else _] => destruct b end;
        intros [= <-]; proj_simpl; cbn [uxLength items length];
        (split; [auto |]); (split; [reflexivity |]); rewrite ?Hitems;
        (split; [cbn [length]; lia |]);
        intros tok Hin; rewrite ?in_app_iff in Hin; cbn [In] in *; intuition eauto.
    + rewrite (desc_at_frame _ _ _ st) by reflexivity.
      destruct (desc_at I2SDMABUFCNT desc_addr (regs st I2S_OUT_EOF_DES_ADDR_REG) st)
        as [d|] eqn:Hd; [| discriminate].
      cbn [uxLength items length] in *.
      destruct (Z.of_nat (length rest) <? uxLength q) eqn:Hroom; cbn [mbind outcome_bind];
        match goal with |- context [if ?b then _ else _] => destruct b end;
        intros [= <-]; proj_simpl; cbn [uxLength items];
        (split; [auto |]); (split; [reflexivity |]);
        (split; [rewrite ?length_app; cbn [length]; lia |]);
        intros tok Hin; rewrite ?in_app_iff in Hin; cbn [In] in *;
        intuition eauto.
  - rewrite (desc_at_frame _ _ _ st) by reflexivity.
    destruct (desc_at I2SDMABUFCNT desc_addr (regs st I2S_OUT_EOF_DES_ADDR_REG) st)
      as [d|] eqn:Hd; [| discriminate].
    destruct (Z.of_nat (length (items q)) <? uxLength q) eqn:Hroom; cbn [mbind outcome_bind];
      match goal with |- context [if ?b then _ else _] => destruct b end;
      intros [= <-]; proj_simpl; cbn [uxLength items];
      (split; [auto |]); (split; [reflexivity |]);
      (split; [rewrite ?length_app; cbn [length]; lia |]);
      intros tok Hin; rewrite ?in_app_iff in Hin; cbn [In] in *;
      intuition eauto.
Qed.

(** What a push that returned has done to everything but the cursor: it
    stored the frame, and if it fetched a buffer that was the head of the
    queue. *)

Lemma push_effect sample st st' :
  i2sPushSample I2SDMABUFLEN sample st = Done st' ->
  underrunCnt st' = underrunCnt st /\ i2sBufDesc st' = i2sBufDesc st /\
  i2sBuf st' = i2sBuf st /\ regs st' = regs st /\
  ((exists q rest,
       dmaQueue st = Some q /\ items q = currDMABuff st' :: rest /\
       dmaQueue st' = Some (Queue (uxLength q) rest) /\
       store_word (currDMABuff st') 0 sample (heap st) = Some (heap st')) \/
   (dmaQueue st' = dmaQueue st /\ currDMABuff st' = currDMABuff st /\
    store_word (currDMABuff st) (currDMABuffPos st) sample (heap st) = Some (heap st'))).
Proof.
  unfold i2sPushSample.
  destruct ((currDMABuffPos st =? I2SDMABUFLEN) || bool_decide (currDMABuff st = NULL)).
  - destruct (dmaQueue st) as [q|]; [| discriminate].
    unfold xQueueReceive. destruct (items q) as [|item rest] eqn:Hitems; [discriminate |].
    cbn [mbind outcome_bind].
    match goal with |- context [store_word ?p ?i ?v ?h] =>
      destruct (store_word p i v h) eqn:Hst end; [| discriminate].
    intros [= <-]. proj_simpl. repeat (split; [reflexivity |]).
    left. exists q, rest. auto.
  - cbn [mbind outcome_bind].
    destruct (store_word (currDMABuff st) (currDMABuffPos st) sample (heap st)) eqn:Hst;
      [| discriminate].
    intros [= <-]. proj_simpl. repeat (split; [reflexivity |]).
    right. auto.
Qed.

(** With a queue and a finished descriptor to read, the handler returns. *)

Lemma i2s_isr_total rx tx st q d :
  dmaQueue st = Some q ->
  desc_at I2SDMABUFCNT desc_addr (regs st I2S_OUT_EOF_DES_ADDR_REG) st = Some d ->
  exists st', i2s_isr I2SDMABUFCNT K desc_addr rx tx st = Done st'.
Proof.
  intros Hq Hd. unfold i2s_isr, READ_PERI_REG.
  destruct (regs st I2S_INT_ST_REG =? 0); [eauto |].
  destruct (Z.land (regs st I2S_INT_ST_REG) (I2S_OUT_EOF_INT_ST K) =? 0).
  { cbn [mbind outcome_bind]. eauto. }
  cbn [WRITE_PERI_REG set_regs dmaQueue regs]. rewrite Hq.
  replace (reg_write I2S_INT_CLR_REG 4294967295 (regs st) I2S_OUT_EOF_DES_ADDR_REG)
    with (regs st I2S_OUT_EOF_DES_ADDR_REG) by reflexivity.
  destruct (xQueueIsQueueFullFromISR q).
  - destruct (xQueueReceiveFromISR q) as [q1 dummy].
    rewrite (desc_at_frame _ _ _ st), Hd by reflexivity.
    destruct (xQueueSendFromISR q1 _) as [q2 sent]. cbn [mbind outcome_bind].
    match goal with |- context [if ?b then _ else _] => destruct b end; eauto.
  - rewrite (desc_at_frame _ _ _ st), Hd by reflexivity.
    destruct (xQueueSendFromISR q _) as [q2 sent]. cbn [mbind outcome_bind].
    match goal with |- context [if ?b then _ else _] => destruct b end; eauto.
Qed.

Hypothesis buflen_pos : 0 < I2SDMABUFLEN.
Hypothesis buflen_int : I2SDMABUFLEN <= INT_MAX.

(** X2. From a producer without a buffer at offset 0, a run with [k >= 1]
    pushes ends at write offset [(k-1) mod I2SDMABUFLEN + 1] and has made
    [(k-1) / I2SDMABUFLEN + 1] dequeues: one per buffer begun, however the
    interrupts fall between the pushes. *)

Theorem pushes_offset_and_dequeues (acts : list action) (st st' : state) :
  currDMABuff st = NULL ->
  currDMABuffPos st = 0 ->
  run I2SDMABUFCNT I2SDMABUFLEN K desc_addr acts st = Done st' ->
  (1 <= pushes acts)%nat ->
  currDMABuffPos st' = (Z.of_nat (pushes acts) - 1) mod I2SDMABUFLEN + 1 /\
  Z.of_nat (dequeues (trace st'))
  = Z.of_nat (dequeues (trace st)) + (Z.of_nat (pushes acts) - 1) / I2SDMABUFLEN + 1.
Proof.
  intros Hb Hp Hrun Hk.
  assert (Hinv : producer_after I2SDMABUFLEN 0 (dequeues (trace st)) st) by (left; auto).
  pose proof (run_counts I2SDMABUFCNT I2SDMABUFLEN K desc_addr buflen_pos buflen_int
                acts 0 _ st st' Hinv (Z.le_refl 0) Hrun) as H.
  rewrite Z.add_0_l in H. destruct H as [(H & _) | (_ & _ & Hpos & Hd)]; [lia | auto].
Qed.

(** X3. Over a run the underrun count never goes down, rises by at most
    one per interrupt and not at all by pushes, as long as it stays
    below the largest [long]. *)

Theorem underrun_count_monotone (acts : list action) :
  forall st st',
    run I2SDMABUFCNT I2SDMABUFLEN K desc_addr acts st = Done st' ->
    - 2 ^ 31 <= i2sGetUnderrunCnt st ->
    i2sGetUnderrunCnt st + Z.of_nat (interrupts acts) <= INT_MAX ->
    i2sGetUnderrunCnt st <= i2sGetUnderrunCnt st'
    <= i2sGetUnderrunCnt st + Z.of_nat (interrupts acts).
Proof.
  unfold i2sGetUnderrunCnt, INT_MAX.
  induction acts as [|a acts IH]; intros st st'; cbn [run].
  - intros [= <-] _ _. change (Z.of_nat (interrupts [])) with 0. lia.
  - destruct (step I2SDMABUFCNT I2SDMABUFLEN K desc_addr a st) as [st1| |] eqn:Hs;
      cbn [mbind outcome_bind]; try discriminate.
    intros Hrun Hlo Hhi. destruct a as [status addr rx tx | sample]; cbn [step] in Hs.
    + assert (Hn : interrupts (Interrupt status addr rx tx :: acts) = S (interrupts acts))
        by reflexivity.
      rewrite Hn in *. apply i2s_isr_queue in Hs as [Hc _].
      change (underrunCnt (raise_interrupt status addr st)) with (underrunCnt st) in Hc.
      assert (H1 : underrunCnt st <= underrunCnt st1 <= underrunCnt st + 1).
      { destruct Hc as [-> | ->]; [lia |]. rewrite int32_small; lia. }
      specialize (IH st1 st' Hrun). lia.
    + assert (Hn : interrupts (Push sample :: acts) = interrupts acts) by reflexivity.
      rewrite Hn in *. apply push_effect in Hs as (Hc & _).
      specialize (IH st1 st' Hrun). rewrite Hc in IH. lia.
Qed.

(** X4. A queue that holds no more than its capacity still does after any
    run, and its capacity never changes: the handler makes room before it
    enqueues into a full queue. *)


End StepProofs.

(** ** No access outside a buffer *)

Lemma store_byte_lens p i v h h' :
  store_byte p i v h = Some h' -> forall q, buffer_len q h' = buffer_len q h.
Proof.
  unfold store_byte. destruct p as [|b]; [discriminate |].
  destruct (h !! b) as [bytes|] eqn:Hb; [| discriminate].
  destruct ((0 <=? i) && (i <? Z.of_nat (length bytes))); [| discriminate].
  intros [= <-] [|c]; [reflexivity |]. cbn [buffer_len].
  destruct (decide (b = c)) as [<- | Hne].
  - rewrite list_lookup_insert_eq, Hb by (eapply lookup_lt_Some; eauto). cbn.
    rewrite length_insert. reflexivity.
  - rewrite list_lookup_insert_ne by assumption. reflexivity.
Qed.

Lemma store_word_lens p i v h h' :
  store_word p i v h = Some h' -> forall q, buffer_len q h' = buffer_len q h.
Proof.
  unfold store_word.
  destruct (store_byte p (4 * i) v h) as [h0|] eqn:H0; [| discriminate].
  cbn [mbind option_bind].
  destruct (store_byte p (4 * i + 1) (Z.shiftr v 8) h0) as [h1|] eqn:H1; [| discriminate].
  cbn [mbind option_bind].
  destruct (store_byte p (4 * i + 2) (Z.shiftr v 16) h1) as [h2|] eqn:H2; [| discriminate].
  cbn [mbind option_bind]. intros H3 q.
  rewrite (store_byte_lens _ _ _ _ _ H3), (store_byte_lens _ _ _ _ _ H2),
    (store_byte_lens _ _ _ _ _ H1), (store_byte_lens _ _ _ _ _ H0). reflexivity.
Qed.

Section SafetyProofs.

Variable I2SDMABUFCNT : Z.
Variable I2SDMABUFLEN : Z.
Variable I2S_DEFAULT_SAMPLE_RATE : Z.
Variable K : i2s_consts.
Variable desc_addr : Z -> Z.

Hypothesis buflen_pos : 0 < I2SDMABUFLEN.
Hypothesis buflen_int : I2SDMABUFLEN <= INT_MAX.

Lemma desc_index_some x :
  0 <= x < I2SDMABUFCNT ->
  exists x', desc_index I2SDMABUFCNT desc_addr (desc_addr x) = Some x' /\
             0 <= x' < I2SDMABUFCNT.
Proof.
  intros Hx. unfold desc_index.
  destruct (find (fun y => desc_addr y =? desc_addr x) (seqZ 0 I2SDMABUFCNT)) as [x'|] eqn:Hf.
  - exists x'. split; [reflexivity |]. apply find_some in Hf as [Hin _].
    apply list_elem_of_In, elem_of_seqZ in Hin. lia.
  - assert (Hn : (desc_addr x =? desc_addr x) = false).
    { apply (find_none _ _ Hf x). apply list_elem_of_In, elem_of_seqZ. lia. }
    lia.
Qed.

Lemma safe_after_store st h' q' buff pos tr :
  safe_state I2SDMABUFCNT I2SDMABUFLEN st ->
  (forall p, buffer_len p h' = buffer_len p (heap st)) ->
  (forall tok, In tok (items q') ->
     buffer_len tok (heap st) = Some (4 * I2SDMABUFLEN)) ->
  buffer_len buff (heap st) = Some (4 * I2SDMABUFLEN) ->
  0 <= pos <= I2SDMABUFLEN ->
  safe_state I2SDMABUFCNT I2SDMABUFLEN
    (State (i2sBuf st) (i2sBufDesc st) (Some q') (underrunCnt st) buff pos h'
           (regs st) tr).
Proof.
  intros (_ & _ & _ & Hdesc & Hlen) Hh Hq Hb Hp.
  unfold safe_state, is_buffer in *.
  cbn [dmaQueue heap currDMABuff currDMABuffPos i2sBufDesc].
  split; [exists q'; split; [reflexivity |]; intros tok Ht; rewrite Hh; auto |].
  split; [right; rewrite Hh; exact Hb |]. split; [exact Hp |].
  split; [| exact Hlen]. intros x d Hx Hd. rewrite Hh. eauto.
Qed.

Lemma step_safe a st :
  safe_state I2SDMABUFCNT I2SDMABUFLEN st ->
  ring_action I2SDMABUFCNT desc_addr a ->
  match step I2SDMABUFCNT I2SDMABUFLEN K desc_addr a st with
  | Done st' => safe_state I2SDMABUFCNT I2SDMABUFLEN st'
  | Blocked => True
  | Fault _ => False
  end.
Proof.
  intros Hsafe Ha.
  pose proof Hsafe as ((q & Hq & Hitems) & Hbuf & Hpos & Hdesc & Hlen).
  destruct a as [status addr rx tx | sample]; cbn [step].
  - destruct Ha as (x & Hx & Haddr).
    destruct (desc_index_some x Hx) as (x' & Hix & Hx').
    destruct (lookup_lt_is_Some_2 (i2sBufDesc st) (Z.to_nat x') ltac:(lia)) as [d Hd].
    set (st1 := raise_interrupt status addr st).
    assert (Hat : desc_at I2SDMABUFCNT desc_addr (regs st1 I2S_OUT_EOF_DES_ADDR_REG) st1
                  = Some d).
    { change (regs st1 I2S_OUT_EOF_DES_ADDR_REG) with (uint32 addr).
      rewrite Haddr. unfold desc_at. rewrite Hix. exact Hd. }
    destruct (i2s_isr_total I2SDMABUFCNT K desc_addr rx tx st1 q d Hq Hat) as (st' & Hrun).
    rewrite Hrun.
    destruct (i2s_isr_frame I2SDMABUFCNT K desc_addr I2SDMABUFLEN _ _ _ _ Hrun)
      as (Eb & Ep & Eh & _ & Ed & _).
    destruct (i2s_isr_queue _ _ _ _ _ _ _ Hrun) as [_ Hqq].
    change (dmaQueue st1) with (dmaQueue st) in Hqq. rewrite Hq in Hqq.
    destruct (dmaQueue st') as [q'|] eqn:Hq'; [| contradiction].
    destruct Hqq as (_ & _ & Hin).
    unfold safe_state, is_buffer in *. rewrite Eb, Ep, Eh, Ed.
    change (heap st1) with (heap st). change (currDMABuff st1) with (currDMABuff st).
    change (currDMABuffPos st1) with (currDMABuffPos st).
    change (i2sBufDesc st1) with (i2sBufDesc st).
    split; [| auto]. exists q'. split; [exact Hq' |]. intros tok Ht.
    destruct (Hin tok Ht) as [Hold | (d' & Hd' & ->)]; [auto |].
    rewrite Hat in Hd'. injection Hd' as <-. eapply Hdesc; eauto.
  - destruct (Z.eq_dec (currDMABuffPos st) I2SDMABUFLEN) as [Hfull | Hroom];
      [| destruct (decide (currDMABuff st = NULL)) as [Hnull | Hheld]].
    + destruct (items q) as [|tok rest] eqn:Hi.
      * rewrite (push_refill_empty I2SDMABUFLEN sample st q); auto.
      * assert (Ht : buffer_len tok (heap st) = Some (4 * I2SDMABUFLEN))
          by (apply Hitems; left; reflexivity).
        destruct (push_refill I2SDMABUFLEN buflen_pos sample st q tok rest
                    (or_introl Hfull) Hq Hi Ht) as (h' & Hst & ->).
        apply safe_after_store; auto; [apply (store_word_lens _ _ _ _ _ Hst) | | lia].
        intros t Hin. apply Hitems. right. exact Hin.
    + destruct (items q) as [|tok rest] eqn:Hi.
      * rewrite (push_refill_empty I2SDMABUFLEN sample st q); auto.
      * assert (Ht : buffer_len tok (heap st) = Some (4 * I2SDMABUFLEN))
          by (apply Hitems; left; reflexivity).
        destruct (push_refill I2SDMABUFLEN buflen_pos sample st q tok rest
                    (or_intror Hnull) Hq Hi Ht) as (h' & Hst & ->).
        apply safe_after_store; auto; [apply (store_word_lens _ _ _ _ _ Hst) | | lia].
        intros t Hin. apply Hitems. right. exact Hin.
    + destruct Hbuf as [Hn | Hb]; [contradiction |].
      destruct (push_room I2SDMABUFLEN buflen_int sample st Hheld ltac:(lia) Hb)
        as (h' & Hst & ->).
      rewrite Hq.
      apply safe_after_store; auto; [apply (store_word_lens _ _ _ _ _ Hst) | lia].
Qed.

Lemma run_safe (acts : list action) :
  forall st,
    safe_state I2SDMABUFCNT I2SDMABUFLEN st ->
    Forall (ring_action I2SDMABUFCNT desc_addr) acts ->
    match run I2SDMABUFCNT I2SDMABUFLEN K desc_addr acts st with
    | Done st' => safe_state I2SDMABUFCNT I2SDMABUFLEN st'
    | Blocked => True
    | Fault _ => False
    end.
Proof.
  induction acts as [|a acts IH]; intros st Hsafe Hacts; cbn [run]; [exact Hsafe |].
  apply List.Forall_cons_iff in Hacts as [Ha Hacts].
  pose proof (step_safe a st Hsafe Ha) as Hs.
  destruct (step I2SDMABUFCNT I2SDMABUFLEN K desc_addr a st) as [st1| |];
    cbn [mbind outcome_bind]; [apply IH; assumption | exact I | exact Hs].
Qed.

(** X5. In a state where every pointer the driver can write through is a
    buffer of full size, no run of pushes and of interrupts that report
    descriptors of the ring ever makes an access outside a buffer or uses
    a missing queue: the run returns, and in such a state again, or a push
    is left waiting for a buffer. *)

Theorem run_never_faults (acts : list action) (st : state) :
  safe_state I2SDMABUFCNT I2SDMABUFLEN st ->
  Forall (ring_action I2SDMABUFCNT desc_addr) acts ->
  match run I2SDMABUFCNT I2SDMABUFLEN K desc_addr acts st with
  | Done st' => safe_state I2SDMABUFCNT I2SDMABUFLEN st'
  | Blocked => True
  | Fault _ => False
  end.
Proof. apply run_safe. Qed.

(** *** [i2sInit] as a whole *)

Lemma ring_frame_all st0 st :
  for_rangeM 0 I2SDMABUFCNT (init_desc I2SDMABUFCNT I2SDMABUFLEN desc_addr) st0 = Done st ->
  dmaQueue st = dmaQueue st0 /\ underrunCnt st = underrunCnt st0 /\
  currDMABuff st = currDMABuff st0 /\ currDMABuffPos st = currDMABuffPos st0 /\
  trace st = trace st0 /\ length (i2sBufDesc st) = length (i2sBufDesc st0).
Proof.
  unfold for_rangeM. intros Hrun.
  refine (for_loopM_inv
            (fun _ s => dmaQueue s = dmaQueue st0 /\ underrunCnt s = underrunCnt st0 /\
                        currDMABuff s = currDMABuff st0 /\
                        currDMABuffPos s = currDMABuffPos st0 /\
                        trace s = trace st0 /\
                        length (i2sBufDesc s) = length (i2sBufDesc st0))
            _ _ _ _ _ _ _ Hrun); [| auto 10].
  intros i s s' _ (Hq & Hu & Hb & Hp & Ht & Hl). rewrite init_desc_eq.
  destruct (i2sBuf s !! Z.to_nat i); [| discriminate].
  intros [= <-]. cbn [set_i2sBufDesc dmaQueue underrunCnt currDMABuff currDMABuffPos
                       trace i2sBufDesc]. rewrite length_insert. auto 10.
Qed.

Lemma pool_total alloc_ok st0 :
  0 <= I2SDMABUFCNT ->
  I2SDMABUFCNT <= Z.of_nat (length (i2sBuf st0)) ->
  (forall y, 0 <= y < I2SDMABUFCNT -> alloc_ok y = true) ->
  exists st,
    for_rangeM 0 I2SDMABUFCNT (alloc_buffer I2SDMABUFLEN alloc_ok) st0 = Done st.
Proof.
  intros HN Hlen Hok. unfold for_rangeM.
  destruct (for_loopM_total (pool_at I2SDMABUFLEN st0)
              (alloc_buffer I2SDMABUFLEN alloc_ok) (Z.to_nat (I2SDMABUFCNT - 0)) 0 st0)
    as (st & Hrun & _); [| apply pool_at_start | eauto].
  intros y s Hy Hp.
  assert (Hl : (Z.to_nat y < length (i2sBuf s))%nat).
  { destruct Hp as (_ & _ & -> & _). lia. }
  pose proof (alloc_buffer_ok I2SDMABUFLEN buflen_pos alloc_ok y s
                (Hok y ltac:(lia)) ltac:(lia) Hl) as Hb.
  eexists. split; [exact Hb |].
  apply (pool_at_next I2SDMABUFLEN buflen_pos alloc_ok st0 y s _ ltac:(lia) Hp Hb).
Qed.

Lemma ring_total st0 :
  I2SDMABUFCNT <= Z.of_nat (length (i2sBuf st0)) ->
  exists st,
    for_rangeM 0 I2SDMABUFCNT (init_desc I2SDMABUFCNT I2SDMABUFLEN desc_addr) st0 = Done st.
Proof.
  intros Hlen. unfold for_rangeM.
  destruct (for_loopM_total (fun _ s => i2sBuf s = i2sBuf st0)
              (init_desc I2SDMABUFCNT I2SDMABUFLEN desc_addr)
              (Z.to_nat (I2SDMABUFCNT - 0)) 0 st0)
    as (st & Hrun & _); [| reflexivity | eauto].
  intros x s Hx Hb. rewrite init_desc_eq, Hb.
  destruct (lookup_lt_is_Some_2 (i2sBuf st0) (Z.to_nat x) ltac:(lia)) as [p ->].
  eexists. split; [reflexivity |]. exact Hb.
Qed.

(** X6. With arrays of I2SDMABUFCNT elements, [i2sInit] returns exactly
    when every one of its allocations is granted. *)

Theorem i2sInit_returns_iff (alloc_ok : Z -> bool) (queue_ok : bool) (st : state) :
  0 <= I2SDMABUFCNT ->
  arrays_ok I2SDMABUFCNT st ->
  (exists st',
      i2sInit I2SDMABUFCNT I2SDMABUFLEN I2S_DEFAULT_SAMPLE_RATE K desc_addr
              alloc_ok queue_ok st = Done st') <->
  (forall y, 0 <= y < I2SDMABUFCNT -> alloc_ok y = true).
Proof.
  intros HN [Hbufs Hdescs]. split.
  - intros (st' & Hinit).
    apply (i2sInit_pool _ _ _ _ _ buflen_pos _ _ _ _ HN Hinit).
  - intros Hok.
    destruct (pool_total alloc_ok (set_underrunCnt 0 st) HN) as (st1 & H1);
      [cbn [i2sBuf set_underrunCnt]; lia | exact Hok |].
    destruct (pool_done _ _ buflen_pos _ _ _ HN H1) as ((_ & _ & Hlen & _) & _).
    cbn [i2sBuf set_underrunCnt] in Hlen.
    unfold i2sInit. rewrite H1. cbn [mbind outcome_bind].
    match goal with
    | |- context [for_rangeM ?a ?b ?c ?d] =>
        destruct (ring_total d) as (st2 & H2)
    end.
    { change (I2SDMABUFCNT <= Z.of_nat (length (i2sBuf st1))). lia. }
    rewrite H2. cbn [mbind outcome_bind]. eauto.
Qed.

Lemma i2sInit_descs alloc_ok queue_ok st st' :
  0 <= I2SDMABUFCNT ->
  arrays_ok I2SDMABUFCNT st ->
  i2sInit I2SDMABUFCNT I2SDMABUFLEN I2S_DEFAULT_SAMPLE_RATE K desc_addr
          alloc_ok queue_ok st = Done st' ->
  forall i, 0 <= i < I2SDMABUFCNT ->
    i2sBufDesc st' !! Z.to_nat i
    = Some (ring_desc I2SDMABUFCNT I2SDMABUFLEN desc_addr i
              (Ptr (length (heap st) + Z.to_nat i))).
Proof.
  intros HN [_ Hlen] Hinit i Hi.
  destruct (i2sInit_pool _ _ _ _ _ buflen_pos _ _ _ _ HN Hinit) as (_ & _ & Hbufs & _).
  destruct (i2sInit_done _ _ _ _ _ _ _ _ _ Hinit)
    as (st1 & st1' & st2 & H1 & H2 & (Eb1 & Ed1 & _) & (Eb & Ed & _)).
  destruct (pool_done _ _ buflen_pos _ _ _ HN H1) as (((Hd & _) & _) & _).
  cbn [i2sBufDesc set_underrunCnt] in Hd.
  assert (Hlen1 : Z.of_nat (length (i2sBufDesc st1')) = I2SDMABUFCNT)
    by (rewrite Ed1, Hd; exact Hlen).
  pose proof (ring_done _ _ _ _ _ HN Hlen1 H2)
    as (Eb2 & _ & _ & _ & _ & _ & _ & _ & _ & Hring).
  destruct (Hring i Hi) as (p & Hp & Hdesc).
  rewrite Ed, Hdesc. rewrite <- Eb2, <- Eb, (Hbufs i Hi) in Hp.
  injection Hp as <-. reflexivity.
Qed.

Lemma i2sInit_safe alloc_ok st st' :
  arrays_ok I2SDMABUFCNT st ->
  0 <= I2SDMABUFCNT ->
  currDMABuff st = NULL ->
  currDMABuffPos st = 0 ->
  i2sInit I2SDMABUFCNT I2SDMABUFLEN I2S_DEFAULT_SAMPLE_RATE K desc_addr
          alloc_ok true st = Done st' ->
  underrunCnt st' = 0 /\
  dmaQueue st' = Some (Queue (I2SDMABUFCNT - 1) []) /\
  currDMABuff st' = NULL /\ currDMABuffPos st' = 0 /\
  safe_state I2SDMABUFCNT I2SDMABUFLEN st'.
Proof.
  intros Harr HN Hb Hp Hinit.
  destruct (i2sInit_done _ _ _ _ _ _ _ _ _ Hinit)
    as (st1 & st1' & st2 & H1 & H2 & (_ & Ed1 & _ & Eu1 & Eb1 & Ep1)
        & (_ & Ed & Eh & Eu & Eb & Ep & Eq & _)).
  destruct (pool_done _ _ buflen_pos _ _ _ HN H1)
    as (((Hd0 & _ & Hb0 & Hp0 & _ & _ & Hu0) & _) & _).
  cbn [i2sBufDesc currDMABuff currDMABuffPos underrunCnt set_underrunCnt] in *.
  destruct (ring_frame_all _ _ H2) as (_ & Hu2 & Hb2 & Hp2 & _ & Hl2).
  destruct (i2sInit_pool _ _ _ _ _ buflen_pos _ _ _ _ HN Hinit) as (Hheap & _ & Hbufs & _).
  assert (Hcnt : underrunCnt st' = 0) by congruence.
  assert (Hbuf : currDMABuff st' = NULL) by congruence.
  assert (Hpos : currDMABuffPos st' = 0) by congruence.
  split; [exact Hcnt |]. split; [exact Eq |]. split; [exact Hbuf |]. split; [exact Hpos |].
  unfold safe_state, is_buffer. rewrite Eq, Hbuf, Hpos.
  split; [exists (Queue (I2SDMABUFCNT - 1) []); split; [reflexivity | intros tok []] |].
  split; [auto |]. split; [lia |]. split.
  - intros x d Hx Hd.
    rewrite (i2sInit_descs _ _ _ _ HN Harr Hinit x Hx) in Hd.
    injection Hd as <-. cbn [ring_desc Lldesc.buf buffer_len].
    rewrite Hheap, lookup_pool by lia. cbn. unfold zeros.
    rewrite length_replicate. f_equal. lia.
  - destruct Harr as [_ Hl]. rewrite Ed, Hl2, Ed1, Hd0. exact Hl.
Qed.

(** X7. When [i2sInit] has returned with its queue, the underrun count is
    zero, the queue is empty with room for I2SDMABUFCNT-1 tokens, and the
    producer, holding no buffer, is made to wait by its first push: nothing
    can be written before the DMA engine has handed back a buffer. *)

Theorem i2sInit_ready (alloc_ok : Z -> bool) (st st' : state) :
  arrays_ok I2SDMABUFCNT st ->
  0 <= I2SDMABUFCNT ->
  currDMABuff st = NULL ->
  currDMABuffPos st = 0 ->
  i2sInit I2SDMABUFCNT I2SDMABUFLEN I2S_DEFAULT_SAMPLE_RATE K desc_addr
          alloc_ok true st = Done st' ->
  i2sGetUnderrunCnt st' = 0 /\
  dmaQueue st' = Some (xQueueCreate (I2SDMABUFCNT - 1)) /\
  forall sample, i2sPushSample I2SDMABUFLEN sample st' = Blocked.
Proof.
  intros Harr HN Hb Hp Hinit.
  destruct (i2sInit_safe alloc_ok st st' Harr HN Hb Hp Hinit) as (Hc & Hq & Hb' & _).
  split; [exact Hc |]. split; [exact Hq |]. intros sample.
  apply (push_refill_empty I2SDMABUFLEN sample st' _ (or_intror Hb') Hq). reflexivity.
Qed.

(** X8. After [i2sInit] has returned from a state without a current
    buffer, no run of pushes and of interrupts that report descriptors of
    the ring makes an access outside a sample buffer. *)


(** X9. The buffers [i2sInit] allocates are pairwise different blocks, all
    of them new: what was on the heap before is still there unchanged. *)

Theorem i2sInit_pool_fresh (alloc_ok : Z -> bool) (queue_ok : bool) (st st' : state) :
  0 <= I2SDMABUFCNT ->
  i2sInit I2SDMABUFCNT I2SDMABUFLEN I2S_DEFAULT_SAMPLE_RATE K desc_addr
          alloc_ok queue_ok st = Done st' ->
  (forall i j, 0 <= i < I2SDMABUFCNT -> 0 <= j < I2SDMABUFCNT -> i <> j ->
     i2sBuf st' !! Z.to_nat i <> i2sBuf st' !! Z.to_nat j) /\
  (forall i, 0 <= i < I2SDMABUFCNT ->
     exists b, i2sBuf st' !! Z.to_nat i = Some (Ptr b) /\ (length (heap st) <= b)%nat) /\
  (forall b, (b < length (heap st))%nat -> heap st' !! b = heap st !! b).
Proof.
  intros HN Hinit.
  destruct (i2sInit_pool _ _ _ _ _ buflen_pos _ _ _ _ HN Hinit) as (Hheap & _ & Hbufs & _).
  split; [| split].
  - intros i j Hi Hj Hne. rewrite (Hbufs i Hi), (Hbufs j Hj). intros [= E]. lia.
  - intros i Hi. eexists. split; [apply Hbufs, Hi | lia].
  - intros b Hb. rewrite Hheap. apply lookup_app_l. exact Hb.
Qed.

(** X10. [i2sInit], when it returns, has made these calls into the SDK and
    no other, in this order: the peripheral is enabled, the interrupt is
    allocated and enabled, the pins are configured and routed; and it has
    reported the divider for the default sample rate, found without word
    length fuzzing and hence with 16 bits. *)


(** X11. No run changes the descriptor ring or the table of buffers:
    after [i2sInit] only the contents of the buffers change. *)


End SafetyProofs.

(** ** Frames in a buffer *)

Lemma store_byte_other p i v h h' :
  store_byte p i v h = Some h' ->
  forall k, k <> i -> load_byte p k h' = load_byte p k h.
Proof.
  unfold store_byte. destruct p as [|b]; [discriminate |].
  destruct (h !! b) as [bytes|] eqn:Hb; [| discriminate].
  destruct ((0 <=? i) && (i <? Z.of_nat (length bytes))) eqn:Hi; [| discriminate].
  intros [= <-] k Hk. cbn [load_byte].
  rewrite list_lookup_insert_eq, Hb by (eapply lookup_lt_Some; eauto). cbn.
  destruct (0 <=? k) eqn:Hk0; [| reflexivity].
  apply andb_prop in Hi as [Hi0 _]. apply list_lookup_insert_ne. lia.
Qed.

Lemma store_word_other p i v h h' :
  store_word p i v h = Some h' ->
  forall j, j <> i -> load_word p j h' = load_word p j h.
Proof.
  unfold store_word.
  destruct (store_byte p (4 * i) v h) as [h0|] eqn:H0; [| discriminate].
  cbn [mbind option_bind].
  destruct (store_byte p (4 * i + 1) (Z.shiftr v 8) h0) as [h1|] eqn:H1; [| discriminate].
  cbn [mbind option_bind].
  destruct (store_byte p (4 * i + 2) (Z.shiftr v 16) h1) as [h2|] eqn:H2; [| discriminate].
  cbn [mbind option_bind]. intros H3 j Hj. unfold load_word.
  assert (E : forall k, 4 * j <= k <= 4 * j + 3 -> load_byte p k h' = load_byte p k h).
  { intros k Hk.
    rewrite (store_byte_other _ _ _ _ _ H3), (store_byte_other _ _ _ _ _ H2),
      (store_byte_other _ _ _ _ _ H1), (store_byte_other _ _ _ _ _ H0) by lia.
    reflexivity. }
  rewrite !E by lia. reflexivity.
Qed.

Section FrameProofs.

Variable I2SDMABUFCNT : Z.
Variable I2SDMABUFLEN : Z.
Variable K : i2s_consts.
Variable desc_addr : Z -> Z.

Hypothesis buflen_pos : 0 < I2SDMABUFLEN.
Hypothesis buflen_int : I2SDMABUFLEN <= INT_MAX.

Lemma run_pushes_room (samples : list Z) :
  forall st p,
    currDMABuffPos st = p -> 0 <= p ->
    p + Z.of_nat (length samples) <= I2SDMABUFLEN ->
    buffer_len (currDMABuff st) (heap st) = Some (4 * I2SDMABUFLEN) ->
    exists st',
      run I2SDMABUFCNT I2SDMABUFLEN K desc_addr (map Push samples) st = Done st' /\
      currDMABuff st' = currDMABuff st /\
      currDMABuffPos st' = p + Z.of_nat (length samples) /\
      dmaQueue st' = dmaQueue st /\
      (forall j, 0 <= j < p ->
         load_word (currDMABuff st) j (heap st') = load_word (currDMABuff st) j (heap st)) /\
      (forall i s, samples !! i = Some s ->
         load_word (currDMABuff st) (p + Z.of_nat i) (heap st') = Some (uint32 s)).
Proof.
  induction samples as [|s samples IH]; intros st p Hp Hp0 Hlen Hbuf.
  - exists st. cbn [run map length]. split; [reflexivity |]. split; [reflexivity |].
    split; [cbn; lia |]. split; [reflexivity |]. split; [auto |]. intros i s [=].
  - cbn [length] in Hlen.
    assert (Hnn : currDMABuff st <> NULL).
    { intros E. rewrite E in Hbuf. discriminate. }
    destruct (push_room I2SDMABUFLEN buflen_int s st Hnn ltac:(lia) Hbuf)
      as (h' & Hst & Hpush).
    destruct (store_word_ok _ (currDMABuffPos st) s (heap st) _ Hbuf)
      as (h'' & Hst' & _ & Hload); [lia | lia |].
    rewrite Hst in Hst'. injection Hst' as <-.
    cbn [map run step]. rewrite Hpush. cbn [mbind outcome_bind].
    match goal with |- context [run _ _ _ _ _ ?s1] => set (st1 := s1) end.
    destruct (IH st1 (p + 1)) as (st' & Hrun & Eb & Ep & Eq & Hold & Hnew).
    + subst st1. cbn [currDMABuffPos]. lia.
    + lia.
    + lia.
    + subst st1. cbn [currDMABuff heap].
      rewrite (store_word_lens _ _ _ _ _ Hst). exact Hbuf.
    + exists st'. subst st1. cbn [currDMABuff heap dmaQueue] in *.
      split; [exact Hrun |]. split; [exact Eb |]. split; [cbn [length]; lia |].
      split; [exact Eq |]. split.
      * intros j Hj. rewrite Hold by lia.
        apply (store_word_other _ _ _ _ _ Hst). lia.
      * intros [|i] s' Hs'; cbn in Hs'.
        -- injection Hs' as <-. rewrite Z.add_0_r, Hold by lia.
           rewrite <- Hp. exact Hload.
        -- replace (p + Z.of_nat (S i)) with (p + 1 + Z.of_nat i) by lia.
           apply Hnew. exact Hs'.
Qed.

(** X12. Frames pushed into a fresh buffer lie in it in the order they
    were pushed: when the producer has to fetch a buffer and one is queued,
    pushing up to I2SDMABUFLEN frames returns, uses that one buffer, takes
    nothing else from the queue, and leaves frame [i] in word [i] of the
    buffer. *)

Theorem pushed_frames_in_order (samples : list Z) (st : state) (q : queue)
    (tok : ptr) (rest : list ptr) :
  currDMABuffPos st = I2SDMABUFLEN \/ currDMABuff st = NULL ->
  dmaQueue st = Some q ->
  items q = tok :: rest ->
  buffer_len tok (heap st) = Some (4 * I2SDMABUFLEN) ->
  (1 <= length samples)%nat ->
  Z.of_nat (length samples) <= I2SDMABUFLEN ->
  exists st',
    run I2SDMABUFCNT I2SDMABUFLEN K desc_addr (map Push samples) st = Done st' /\
    currDMABuff st' = tok /\
    currDMABuffPos st' = Z.of_nat (length samples) /\
    dmaQueue st' = Some (Queue (uxLength q) rest) /\
    forall i s, samples !! i = Some s ->
      load_word tok (Z.of_nat i) (heap st') = Some (uint32 s).
Proof.
  intros Hneed Hq Hitems Hbuf Hone Hlen.
  destruct samples as [|s samples]; [cbn in Hone; lia |]. cbn [length] in Hlen.
  destruct (push_refill I2SDMABUFLEN buflen_pos s st q tok rest Hneed Hq Hitems Hbuf)
    as (h' & Hst & Hpush).
  destruct (store_word_ok tok 0 s (heap st) _ Hbuf) as (h'' & Hst' & _ & Hload);
    [lia | lia |].
  rewrite Hst in Hst'. injection Hst' as <-.
  cbn [map run step]. rewrite Hpush. cbn [mbind outcome_bind].
  match goal with |- context [run _ _ _ _ _ ?s1] => set (st1 := s1) end.
  destruct (run_pushes_room samples st1 1) as (st' & Hrun & Eb & Ep & Eq & Hold & Hnew).
  - reflexivity.
  - lia.
  - lia.
  - subst st1. cbn [currDMABuff heap].
    rewrite (store_word_lens _ _ _ _ _ Hst). exact Hbuf.
  - exists st'. subst st1. cbn [currDMABuff heap dmaQueue] in *.
    split; [exact Hrun |]. split; [exact Eb |]. split; [cbn [length]; lia |].
    split; [exact Eq |].
    intros [|i] s' Hs'; cbn in Hs'.
    + injection Hs' as <-. rewrite Hold by lia. exact Hload.
    + replace (Z.of_nat (S i)) with (1 + Z.of_nat i) by lia. apply Hnew. exact Hs'.
Qed.

End FrameProofs.

(** ** [i2sSetRate] and the registers *)

Lemma reg_set_bits_eq r bit_map value shift f :
  reg_set_bits r bit_map value shift f r
  = uint32 (Z.lor (Z.land (f r) (Z.lnot (Z.shiftl bit_map shift)))
                  (Z.shiftl (Z.land value bit_map) shift)).
Proof.
  unfold reg_set_bits, reg_write. destruct (decide (r = r)); [reflexivity | contradiction].
Qed.

Lemma reg_set_bits_ne r r' bit_map value shift f :
  r <> r' -> reg_set_bits r bit_map value shift f r' = f r'.
Proof.
  intros Hne. unfold reg_set_bits, reg_write.
  destruct (decide (r = r')); [contradiction | reflexivity].
Qed.

Lemma uint32_testbit x n :
  0 <= n -> Z.testbit (uint32 x) n = (n <? 32) && Z.testbit x n.
Proof.
  intros Hn. unfold uint32. destruct (Z.ltb_spec n 32).
  - rewrite Z.mod_pow2_bits_low by lia. reflexivity.
  - rewrite Z.mod_pow2_bits_high by lia. reflexivity.
Qed.

(** Writing a field: the bits under the mask are replaced, whatever they
    were. *)

Lemma field_testbit x bit_map value shift n :
  0 <= n ->
  Z.testbit (uint32 (Z.lor (Z.land x (Z.lnot (Z.shiftl bit_map shift)))
                           (Z.shiftl (Z.land value bit_map) shift))) n
  = (n <? 32) &&
    (if Z.testbit bit_map (n - shift) then Z.testbit value (n - shift)
     else Z.testbit x n).
Proof.
  intros Hn.
  rewrite uint32_testbit, Z.lor_spec, Z.land_spec, Z.lnot_spec, !Z.shiftl_spec,
    Z.land_spec by exact Hn.
  destruct (Z.testbit bit_map (n - shift)), (Z.testbit value (n - shift)),
    (Z.testbit x n), (n <? 32); reflexivity.
Qed.

Section SetRateProofs.

Variable K : i2s_consts.

Lemma i2sSetRate_regs rate fuzz st r :
  regs (i2sSetRate K rate fuzz st) r
  = reg_set_bits I2S_CLKM_CONF_REG (I2S_CLKM_DIV_NUM K)
      (bestclkmdiv (find_divider rate fuzz)) (I2S_CLKM_DIV_NUM_S K)
      (reg_set_bits I2S_CLKM_CONF_REG (I2S_CLKM_DIV_B K) 0 (I2S_CLKM_DIV_B_S K)
      (reg_set_bits I2S_CLKM_CONF_REG (I2S_CLKM_DIV_A K) 0 (I2S_CLKM_DIV_A_S K)
      (reg_set_bits I2S_SAMPLE_RATE_CONF_REG (I2S_TX_BCK_DIV_NUM K)
         (bestbckdiv (find_divider rate fuzz)) (I2S_TX_BCK_DIV_NUM_S K)
      (reg_set_bits I2S_SAMPLE_RATE_CONF_REG (I2S_RX_BCK_DIV_NUM K)
         (bestbckdiv (find_divider rate fuzz)) (I2S_RX_BCK_DIV_NUM_S K)
      (reg_set_bits I2S_SAMPLE_RATE_CONF_REG (I2S_TX_BITS_MOD K)
         (bestbits (find_divider rate fuzz)) (I2S_TX_BITS_MOD_S K)
      (reg_set_bits I2S_SAMPLE_RATE_CONF_REG (I2S_RX_BITS_MOD K)
         (bestbits (find_divider rate fuzz)) (I2S_RX_BITS_MOD_S K)
         (regs st))))))) r.
Proof. reflexivity. Qed.

(** X13. [i2sSetRate] writes the sample-rate and the clock configuration
    registers and no other, and changes none of the driver's variables
    nor the sample memory; and setting the same rate a second time leaves
    every register as the first time left it. *)

Theorem i2sSetRate_idempotent (rate enaWordlenFuzzing : Z) (st : state) :
  (forall r, r <> I2S_SAMPLE_RATE_CONF_REG -> r <> I2S_CLKM_CONF_REG ->
     regs (i2sSetRate K rate enaWordlenFuzzing st) r = regs st r) /\
  (i2sBuf (i2sSetRate K rate enaWordlenFuzzing st) = i2sBuf st /\
   i2sBufDesc (i2sSetRate K rate enaWordlenFuzzing st) = i2sBufDesc st /\
   dmaQueue (i2sSetRate K rate enaWordlenFuzzing st) = dmaQueue st /\
   underrunCnt (i2sSetRate K rate enaWordlenFuzzing st) = underrunCnt st /\
   currDMABuff (i2sSetRate K rate enaWordlenFuzzing st) = currDMABuff st /\
   currDMABuffPos (i2sSetRate K rate enaWordlenFuzzing st) = currDMABuffPos st /\
   heap (i2sSetRate K rate enaWordlenFuzzing st) = heap st) /\
  (forall r,
     regs (i2sSetRate K rate enaWordlenFuzzing
             (i2sSetRate K rate enaWordlenFuzzing st)) r
     = regs (i2sSetRate K rate enaWordlenFuzzing st) r).
Proof.
  split; [| split].
  - intros r H1 H2. rewrite i2sSetRate_regs.
    rewrite !reg_set_bits_ne by congruence. reflexivity.
  - repeat split.
  - intros r. rewrite (i2sSetRate_regs _ _ (i2sSetRate K rate enaWordlenFuzzing st)).
    rewrite (i2sSetRate_regs _ _ st r).
    set (b := find_divider rate enaWordlenFuzzing).
    destruct (decide (r = I2S_CLKM_CONF_REG)) as [-> | Hc];
      [| destruct (decide (r = I2S_SAMPLE_RATE_CONF_REG)) as [-> | Hs]].
    + rewrite !reg_set_bits_eq.
      rewrite !(reg_set_bits_ne I2S_SAMPLE_RATE_CONF_REG I2S_CLKM_CONF_REG) by discriminate.
      rewrite i2sSetRate_regs. fold b.
      rewrite !reg_set_bits_eq.
      rewrite !(reg_set_bits_ne I2S_SAMPLE_RATE_CONF_REG I2S_CLKM_CONF_REG) by discriminate.
      apply Z.bits_inj'. intros n Hn. rewrite !field_testbit by exact Hn.
      destruct (n <? 32), (Z.testbit (I2S_CLKM_DIV_NUM K) (n - I2S_CLKM_DIV_NUM_S K)),
        (Z.testbit (I2S_CLKM_DIV_B K) (n - I2S_CLKM_DIV_B_S K)),
        (Z.testbit (I2S_CLKM_DIV_A K) (n - I2S_CLKM_DIV_A_S K)); reflexivity.
    + rewrite !(reg_set_bits_ne I2S_CLKM_CONF_REG I2S_SAMPLE_RATE_CONF_REG) by discriminate.
      rewrite !reg_set_bits_eq.
      rewrite i2sSetRate_regs. fold b.
      rewrite !(reg_set_bits_ne I2S_CLKM_CONF_REG I2S_SAMPLE_RATE_CONF_REG) by discriminate.
      rewrite !reg_set_bits_eq.
      apply Z.bits_inj'. intros n Hn. rewrite !field_testbit by exact Hn.
      destruct (n <? 32),
        (Z.testbit (I2S_TX_BCK_DIV_NUM K) (n - I2S_TX_BCK_DIV_NUM_S K)),
        (Z.testbit (I2S_RX_BCK_DIV_NUM K) (n - I2S_RX_BCK_DIV_NUM_S K)),
        (Z.testbit (I2S_TX_BITS_MOD K) (n - I2S_TX_BITS_MOD_S K)),
        (Z.testbit (I2S_RX_BITS_MOD K) (n - I2S_RX_BITS_MOD_S K)); reflexivity.
    + rewrite !reg_set_bits_ne by congruence. rewrite i2sSetRate_regs.
      rewrite !reg_set_bits_ne by congruence. reflexivity.
Qed.

End SetRateProofs.

(** ** Instances

    The statements above at the concrete configuration. *)

(** The claim C5 as the specification words it, with exactly one dequeue,
    fails: from the state [i2sInit] leaves, [demo_run] pushes 130 frames and
    makes two dequeues. *)

Lemma push_130_frames_one_dequeue_fails :
  currDMABuff ready_state = NULL /\
  currDMABuffPos ready_state = 0 /\
  pushes demo_run = 130%nat /\
  match run 4 128 esp32_consts esp32_desc_addr demo_run ready_state with
  | Done st' =>
      dequeues (trace st') <> (dequeues (trace ready_state) + 1)%nat /\
      dequeues (trace st') = (dequeues (trace ready_state) + 2)%nat
  | _ => False
  end.
Proof.
  vm_compute. repeat split; discriminate.
Qed.

Lemma done_state_of (o : outcome state) : is_done o = true -> o = Done (state_of o).
Proof. destruct o; [reflexivity | discriminate | discriminate]. Qed.

Lemma ready_state_done :
  i2sInit 4 128 44100 esp32_consts esp32_desc_addr all_ok true boot_state
  = Done ready_state.
Proof. apply done_state_of. vm_compute. reflexivity. Qed.

Lemma full_state_done :
  run 4 128 esp32_consts esp32_desc_addr three_completions ready_state = Done full_state.
Proof. apply done_state_of. vm_compute. reflexivity. Qed.

Lemma pushed_state_done :
  run 4 128 esp32_consts esp32_desc_addr demo_run ready_state = Done pushed_state.
Proof. apply done_state_of. vm_compute. reflexivity. Qed.

Lemma esp32_desc_addr_inj i j :
  0 <= i < 4 -> 0 <= j < 4 -> esp32_desc_addr i = esp32_desc_addr j -> i = j.
Proof. unfold esp32_desc_addr. lia. Qed.

Lemma i2sSetRate_least_error_witness :
  0 < 44100 <= INT_MAX /\
  in_space 0 (Triple 2 5 16) /\
  error 44100 (chosen (find_divider 44100 0)) <= error 44100 (Triple 2 5 16).
Proof.
  assert (Hr : 0 < 44100 <= INT_MAX) by (unfold INT_MAX; lia).
  assert (Hc : in_space 0 (Triple 2 5 16)) by (vm_compute; intuition discriminate).
  split; [exact Hr |]. split; [exact Hc |].
  apply (proj1 (proj2 (i2sSetRate_least_error 44100 0 Hr))). exact Hc.
Defined.

Lemma i2sSetRate_first_wins_witness :
  0 < 44100 <= INT_MAX /\ in_space 0 (chosen (find_divider 44100 0)).
Proof.
  assert (Hr : 0 < 44100 <= INT_MAX) by (unfold INT_MAX; lia).
  split; [exact Hr |]. exact (proj1 (i2sSetRate_first_wins 44100 0 Hr)).
Defined.

Lemma i2s_isr_underrun_witness :
  uxMessagesWaiting (Queue 3 [Ptr 0; Ptr 1; Ptr 2]) = 3 /\
  exists oldest rest st',
    [Ptr 0; Ptr 1; Ptr 2] = oldest :: rest /\
    i2s_isr 4 esp32_consts esp32_desc_addr false false
            (raise_interrupt (BIT 12) (esp32_desc_addr 3) full_state) = Done st' /\
    underrunCnt st' = 1 /\
    dmaQueue st' = Some (Queue 3 (rest ++ [Ptr 3])).
Proof.
  split; [reflexivity |].
  destruct (i2s_isr_underrun 4 esp32_consts esp32_desc_addr false false
              (raise_interrupt (BIT 12) (esp32_desc_addr 3) full_state)
              (Queue 3 [Ptr 0; Ptr 1; Ptr 2])
              (ring_desc 4 128 esp32_desc_addr 3 (Ptr 3))) as [Hfull _].
  - lia.
  - vm_compute. reflexivity.
  - reflexivity.
  - vm_compute. discriminate.
  - vm_compute. reflexivity.
  - vm_compute. split; [discriminate | reflexivity].
  - destruct (Hfull eq_refl) as (oldest & rest & st' & Hi & Hrun & Hcnt & Hq & _).
    exists oldest, rest, st'. split; [exact Hi |]. split; [exact Hrun |].
    split; [rewrite Hcnt; reflexivity | exact Hq].
Defined.

Lemma i2sPushSample_step_witness :
  dmaQueue full_state = Some (Queue 3 [Ptr 0; Ptr 1; Ptr 2]) /\
  exists st',
    i2sPushSample 128 7 full_state = Done st' /\
    currDMABuff st' = Ptr 0 /\ currDMABuffPos st' = 1 /\
    load_word (Ptr 0) 0 (heap st') = Some 7.
Proof.
  assert (Hq : dmaQueue full_state = Some (Queue 3 [Ptr 0; Ptr 1; Ptr 2]))
    by (vm_compute; reflexivity).
  split; [exact Hq |].
  destruct (i2sPushSample_step 128 ltac:(lia) ltac:(unfold INT_MAX; lia) 7
              full_state _ Hq) as (_ & Hrefill & _).
  destruct (Hrefill (Ptr 0) [Ptr 1; Ptr 2]) as (st' & Hrun & Hb & Hp & _ & Hl & _).
  - right. vm_compute. reflexivity.
  - reflexivity.
  - vm_compute. reflexivity.
  - exists st'. auto.
Defined.

Lemma i2sInit_descriptor_ring_witness :
  arrays_ok 4 boot_state /\
  dma_walk 4 esp32_desc_addr 4 (esp32_desc_addr 0) ready_state = Some (esp32_desc_addr 0) /\
  Z.land (regs ready_state I2S_OUT_LINK_REG) 0xFFFFF = Z.land (esp32_desc_addr 0) 0xFFFFF.
Proof.
  assert (Ha : arrays_ok 4 boot_state) by (split; reflexivity).
  split; [exact Ha |].
  destruct (i2sInit_descriptor_ring 4 128 44100 esp32_consts esp32_desc_addr
              ltac:(lia) ltac:(lia) ltac:(lia) esp32_desc_addr_inj
              ltac:(cbn; lia) ltac:(cbn; lia) ltac:(reflexivity)
              all_ok true boot_state ready_state Ha ready_state_done)
    as (_ & Hwalk & Hout & _).
  split; [exact (Hwalk 4%nat) | exact Hout].
Defined.

Lemma push_130_frames_witness :
  currDMABuff ready_state = NULL /\
  currDMABuffPos ready_state = 0 /\
  pushes demo_run = 130%nat /\
  dequeues (trace pushed_state) = (dequeues (trace ready_state) + 2)%nat /\
  currDMABuffPos pushed_state = 2.
Proof.
  assert (Hb : currDMABuff ready_state = NULL) by (vm_compute; reflexivity).
  assert (Hp : currDMABuffPos ready_state = 0) by (vm_compute; reflexivity).
  assert (Hn : pushes demo_run = 130%nat) by (vm_compute; reflexivity).
  split; [exact Hb |]. split; [exact Hp |]. split; [exact Hn |].
  exact (push_130_frames esp32_consts esp32_desc_addr demo_run ready_state
           pushed_state Hb Hp pushed_state_done Hn).
Defined.

Lemma i2sInit_alloc_failure_witness :
  third_fails 2 = false /\
  exists st',
    i2sInit 4 128 44100 esp32_consts esp32_desc_addr third_fails true boot_state
    = Fault st' /\
    i2sBufDesc st' = i2sBufDesc boot_state /\ dmaQueue st' = dmaQueue boot_state /\
    regs st' = regs boot_state /\ trace st' = trace boot_state.
Proof.
  split; [reflexivity |].
  apply (i2sInit_alloc_failure 4 128 44100 esp32_consts esp32_desc_addr
           ltac:(lia) third_fails true boot_state 2); [lia | reflexivity].
Defined.

Lemma i2sInit_buffers_zero_witness :
  exists b bytes,
    i2sBuf ready_state !! Z.to_nat 3 = Some (Ptr b) /\
    heap ready_state !! b = Some bytes /\
    Z.of_nat (length bytes) = 128 * 4 /\
    Forall (fun byte => byte = 0) bytes.
Proof.
  apply (i2sInit_buffers_zero 4 128 44100 esp32_consts esp32_desc_addr
           ltac:(lia) all_ok true boot_state ready_state ready_state_done 3).
  lia.
Defined.

Lemma i2sPushSample_in_bounds_witness :
  currDMABuff ready_state = NULL /\
  currDMABuffPos ready_state = 0 /\
  0 <= currDMABuffPos pushed_state <= 128.
Proof.
  assert (Hb : currDMABuff ready_state = NULL) by (vm_compute; reflexivity).
  assert (Hp : currDMABuffPos ready_state = 0) by (vm_compute; reflexivity).
  split; [exact Hb |]. split; [exact Hp |].
  exact (proj1 (i2sPushSample_in_bounds 4 128 esp32_consts esp32_desc_addr
                  ltac:(lia) ltac:(unfold INT_MAX; lia) demo_run ready_state
                  pushed_state Hb Hp pushed_state_done)).
Defined.

Lemma i2s_isr_no_status_witness :
  regs ready_state I2S_INT_ST_REG = 0 /\
  i2s_isr 4 esp32_consts esp32_desc_addr false false ready_state = Done ready_state.
Proof.
  assert (H0 : regs ready_state I2S_INT_ST_REG = 0) by (vm_compute; reflexivity).
  split; [exact H0 |].
  exact (proj1 (i2s_isr_no_status 4 esp32_consts esp32_desc_addr false false
                  ready_state) H0).
Defined.

(** The further properties at the concrete configuration. *)

Lemma boot_arrays_ok : arrays_ok 4 boot_state.
Proof. split; reflexivity. Qed.

Lemma three_completions_ring :
  Forall (ring_action 4 esp32_desc_addr) three_completions.
Proof.
  unfold three_completions. repeat apply List.Forall_cons; try apply List.Forall_nil.
  - exists 0. split; [lia | vm_compute; reflexivity].
  - exists 1. split; [lia | vm_compute; reflexivity].
  - exists 2. split; [lia | vm_compute; reflexivity].
Qed.

Lemma i2sSetRate_always_in_space_witness :
  bestbits (find_divider 44100 0) = 16.
Proof. exact (proj2 (i2sSetRate_always_in_space 44100 0) eq_refl). Defined.

Lemma pushes_offset_and_dequeues_witness :
  currDMABuff ready_state = NULL /\
  currDMABuffPos ready_state = 0 /\
  (1 <= pushes demo_run)%nat /\
  currDMABuffPos pushed_state = (Z.of_nat (pushes demo_run) - 1) mod 128 + 1 /\
  Z.of_nat (dequeues (trace pushed_state))
  = Z.of_nat (dequeues (trace ready_state)) + (Z.of_nat (pushes demo_run) - 1) / 128 + 1.
Proof.
  assert (Hb : currDMABuff ready_state = NULL) by (vm_compute; reflexivity).
  assert (Hp : currDMABuffPos ready_state = 0) by (vm_compute; reflexivity).
  assert (Hn : (1 <= pushes demo_run)%nat) by (apply Nat.leb_le; vm_compute; reflexivity).
  split; [exact Hb |]. split; [exact Hp |]. split; [exact Hn |].
  exact (pushes_offset_and_dequeues 4 128 esp32_consts esp32_desc_addr
           ltac:(lia) ltac:(unfold INT_MAX; lia) demo_run ready_state pushed_state
           Hb Hp pushed_state_done Hn).
Defined.

Lemma underrun_count_monotone_witness :
  - 2 ^ 31 <= i2sGetUnderrunCnt ready_state /\
  i2sGetUnderrunCnt ready_state + Z.of_nat (interrupts three_completions) <= INT_MAX /\
  i2sGetUnderrunCnt ready_state <= i2sGetUnderrunCnt full_state
  <= i2sGetUnderrunCnt ready_state + Z.of_nat (interrupts three_completions).
Proof.
  assert (Hl : - 2 ^ 31 <= i2sGetUnderrunCnt ready_state) by (vm_compute; discriminate).
  assert (Hu : i2sGetUnderrunCnt ready_state + Z.of_nat (interrupts three_completions)
               <= INT_MAX) by (vm_compute; discriminate).
  split; [exact Hl |]. split; [exact Hu |].
  exact (underrun_count_monotone 4 128 esp32_consts esp32_desc_addr three_completions
           ready_state full_state full_state_done Hl Hu).
Defined.


Lemma run_never_faults_witness :
  safe_state 4 128 ready_state /\
  Forall (ring_action 4 esp32_desc_addr) three_completions /\
  safe_state 4 128 full_state.
Proof.
  assert (Hs : safe_state 4 128 ready_state).
  { apply (i2sInit_safe 4 128 44100 esp32_consts esp32_desc_addr ltac:(lia)
             all_ok boot_state ready_state boot_arrays_ok ltac:(lia)
             eq_refl eq_refl ready_state_done). }
  split; [exact Hs |]. split; [exact three_completions_ring |].
  pose proof (run_never_faults 4 128 esp32_consts esp32_desc_addr
                ltac:(lia) ltac:(unfold INT_MAX; lia) three_completions ready_state
                Hs three_completions_ring) as H.
  rewrite full_state_done in H. exact H.
Defined.

Lemma i2sInit_returns_iff_witness :
  0 <= 4 /\ arrays_ok 4 boot_state /\
  ((exists st',
       i2sInit 4 128 44100 esp32_consts esp32_desc_addr third_fails true boot_state
       = Done st') <->
   (forall y, 0 <= y < 4 -> third_fails y = true)).
Proof.
  split; [lia |]. split; [exact boot_arrays_ok |].
  apply (i2sInit_returns_iff 4 128 44100 esp32_consts esp32_desc_addr ltac:(lia)
           third_fails true boot_state ltac:(lia) boot_arrays_ok).
Defined.

Lemma i2sInit_ready_witness :
  arrays_ok 4 boot_state /\ currDMABuff boot_state = NULL /\
  currDMABuffPos boot_state = 0 /\
  i2sGetUnderrunCnt ready_state = 0 /\
  i2sPushSample 128 7 ready_state = Blocked.
Proof.
  split; [exact boot_arrays_ok |]. split; [reflexivity |]. split; [reflexivity |].
  destruct (i2sInit_ready 4 128 44100 esp32_consts esp32_desc_addr ltac:(lia)
              all_ok boot_state ready_state boot_arrays_ok ltac:(lia)
              eq_refl eq_refl ready_state_done) as (Hu & _ & Hpush).
  split; [exact Hu | exact (Hpush 7)].
Defined.


Lemma i2sInit_pool_fresh_witness :
  0 <= 4 /\
  i2sBuf ready_state !! Z.to_nat 1 <> i2sBuf ready_state !! Z.to_nat 3.
Proof.
  split; [lia |].
  destruct (i2sInit_pool_fresh 4 128 44100 esp32_consts esp32_desc_addr ltac:(lia)
              all_ok true boot_state ready_state ltac:(lia) ready_state_done)
    as (Hd & _).
  apply (Hd 1 3); lia.
Defined.



Lemma pushed_frames_in_order_witness :
  dmaQueue full_state = Some (Queue 3 [Ptr 0; Ptr 1; Ptr 2]) /\
  buffer_len (Ptr 0) (heap full_state) = Some (4 * 128) /\
  exists st',
    run 4 128 esp32_consts esp32_desc_addr (map Push [11; 22; 33]) full_state
    = Done st' /\
    currDMABuff st' = Ptr 0 /\ currDMABuffPos st' = 3 /\
    load_word (Ptr 0) 1 (heap st') = Some 22.
Proof.
  assert (Hq : dmaQueue full_state = Some (Queue 3 [Ptr 0; Ptr 1; Ptr 2]))
    by (vm_compute; reflexivity).
  assert (Hl : buffer_len (Ptr 0) (heap full_state) = Some (4 * 128))
    by (vm_compute; reflexivity).
  split; [exact Hq |]. split; [exact Hl |].
  destruct (pushed_frames_in_order 4 128 esp32_consts esp32_desc_addr
              ltac:(lia) ltac:(unfold INT_MAX; lia) [11; 22; 33] full_state
              (Queue 3 [Ptr 0; Ptr 1; Ptr 2]) (Ptr 0) [Ptr 1; Ptr 2])
    as (st' & Hrun & Hb & Hp & _ & Hw).
  - right. vm_compute. reflexivity.
  - exact Hq.
  - reflexivity.
  - exact Hl.
  - cbn. lia.
  - cbn. lia.
  - exists st'. split; [exact Hrun |]. split; [exact Hb |]. split; [exact Hp |].
    exact (Hw 1%nat 22 eq_refl).
Defined.

Lemma i2sSetRate_idempotent_witness :
  regs (i2sSetRate esp32_consts 48000 0 (i2sSetRate esp32_consts 48000 0 ready_state))
       I2S_SAMPLE_RATE_CONF_REG
  = regs (i2sSetRate esp32_consts 48000 0 ready_state) I2S_SAMPLE_RATE_CONF_REG.
Proof.
  exact (proj2 (proj2 (i2sSetRate_idempotent esp32_consts 48000 0 ready_state))
               I2S_SAMPLE_RATE_CONF_REG).
Defined.
